(** * crodump/Datafile.py : the .dat/.tad archive reader

    A shallow embedding of the [Datafile] class of cronodump: the container
    header, the index reader, [readrec], the diagnostic [dump] with
    [enumunreferenced], and the compressed-chunk recogniser and decoder.

    Conventions.
    - A byte string is a [list byte]; Python's [len], [b[:n]], [b[n:]] and
      [b[a:b]] are [blen], [upto], [from] and [slice].
    - Unsigned fields are [Z], decoded by [le_int] / [be_int].
    - A call either returns, raises, or is still running when the fuel of
      its [while] loop is used up: the three constructors of [res].
    - [koddecode] (module koddecoder) and raw inflate (zlib) are not part of
      this file of the repository: they are parameters of the functions
      that call them. *)

From Stdlib Require Import Strings.String Strings.Byte Numbers.DecimalString.
From Stdlib Require Import ZArith List Bool Lia Sorted.
Import ListNotations.
Open Scope Z_scope.

(** ** Results of a call *)

Inductive exn : Type :=
| NotACrofile          (* Exception("not a Crofile") *)
| V0111NotSupported    (* Exception("v01.11 format is not yet supported") *)
| RecnumNotPositive    (* Exception("recnum must be a positive number") *)
| IndexError           (* list index out of range *)
| StructError          (* struct.error: buffer of the wrong size *)
| ZlibError.           (* zlib.error *)

Inductive res (A : Type) : Type :=
| Ret (a : A)
| Raise (e : exn)
| OutOfFuel.
Arguments Ret {A} a.
Arguments Raise {A} e.
Arguments OutOfFuel {A}.

Definition bind {A B} (m : res A) (k : A -> res B) : res B :=
  match m with
  | Ret a => k a
  | Raise e => Raise e
  | OutOfFuel => OutOfFuel
  end.

Notation "x <- m ;; k" := (bind m (fun x => k))
  (at level 61, m at next level, right associativity).
Notation "' p <- m ;; k" := (bind m (fun x => match x with p => k end))
  (at level 61, p pattern, m at next level, right associativity).

(** ** Byte strings *)

Definition bytes := list byte.

Definition blen (b : bytes) : Z := Z.of_nat (length b).
(** [b[:n]] and [b[n:]] for [0 <= n]. *)
Definition upto (n : Z) (b : bytes) : bytes := firstn (Z.to_nat n) b.
Definition from (n : Z) (b : bytes) : bytes := skipn (Z.to_nat n) b.
(** [b[lo:hi]] for [0 <= lo], [0 <= hi]: empty when [hi <= lo]. *)
Definition slice (lo hi : Z) (b : bytes) : bytes := upto (hi - lo) (from lo b).

Fixpoint bytes_eqb (a b : bytes) : bool :=
  match a, b with
  | [], [] => true
  | x :: a', y :: b' => Byte.eqb x y && bytes_eqb a' b'
  | _, _ => false
  end.

Definition is_empty (b : bytes) : bool :=
  match b with [] => true | _ => false end.

(** Little- and big-endian unsigned integers. *)
Fixpoint le_int (b : bytes) : Z :=
  match b with
  | [] => 0
  | x :: r => Z.of_N (Byte.to_N x) + 256 * le_int r
  end.

Definition be_int (b : bytes) : Z := le_int (rev b).

(** [struct.unpack] of one unsigned field of [w] bytes: the buffer must have
    exactly that size. *)
Definition unpack_le (w : nat) (b : bytes) : res Z :=
  if Nat.eqb (length b) w then Ret (le_int b) else Raise StructError.

(** [struct.unpack("<LL", b)] and [struct.unpack("<QL", b)]. *)
Definition unpack_LL (b : bytes) : res (Z * Z) :=
  if Nat.eqb (length b) 8
  then Ret (le_int (firstn 4 b), le_int (skipn 4 b))
  else Raise StructError.

Definition unpack_QL (b : bytes) : res (Z * Z) :=
  if Nat.eqb (length b) 12
  then Ret (le_int (firstn 8 b), le_int (skipn 8 b))
  else Raise StructError.

(** [struct.unpack_from(fmt, data, o)] for a format of [w] bytes, [0 <= o]:
    the [w] bytes at [o], an error when fewer are left. *)
Definition field_at (w : nat) (data : bytes) (o : Z) : res bytes :=
  let b := firstn w (from o data) in
  if Nat.eqb (length b) w then Ret b else Raise StructError.

(** [">HH"] *)
Definition unpack_from_HH (data : bytes) (o : Z) : res (Z * Z) :=
  b <- field_at 4 data o ;;
  Ret (be_int (firstn 2 b), be_int (skipn 2 b)).

(** ["<L"] *)
Definition unpack_from_L (data : bytes) (o : Z) : res Z :=
  b <- field_at 4 data o ;;
  Ret (le_int b).

(** ** The archive *)

Definition descriptor : Type := Z * Z * Z.   (* ofs, ln, chk *)

Record Datafile : Type := mkDatafile {
  dat : bytes;                 (* contents of the .dat stream *)
  hdrunk : Z;
  version : bytes;
  encoding : Z;
  blocksize : Z;
  use64bit : bool;
  nrdeleted : Z;
  firstdeleted : Z;
  tadidx : list descriptor;
  datsize : Z
}.

Definition magic_CroFile : bytes :=
  [x43; x72; x6f; x46; x69; x6c; x65; x00].
Definition v0102 : bytes := [x30; x31; x2e; x30; x32].
Definition v0103 : bytes := [x30; x31; x2e; x30; x33].
Definition v0104 : bytes := [x30; x31; x2e; x30; x34].
Definition v0111 : bytes := [x30; x31; x2e; x31; x31].

(** [readdathdr]: the fields of the 19-byte header
    ([struct.unpack("<8sH5sHH", hdrdata)]), the magic and version checks. *)
Definition readdathdr (d : bytes) : res (Z * bytes * Z * Z * bool) :=
  let hdrdata := upto 19 d in
  if Nat.eqb (length hdrdata) 19 then
    let magic := firstn 8 hdrdata in
    let hdrunk := le_int (firstn 2 (skipn 8 hdrdata)) in
    let version := firstn 5 (skipn 10 hdrdata) in
    let encoding := le_int (firstn 2 (skipn 15 hdrdata)) in
    let blocksize := le_int (firstn 2 (skipn 17 hdrdata)) in
    if negb (bytes_eqb magic magic_CroFile) then Raise NotACrofile
    else
      let use64bit := bytes_eqb version v0103 in
      if bytes_eqb version v0111 then Raise V0111NotSupported
      else Ret (hdrunk, version, encoding, blocksize, use64bit)
  else Raise StructError.

(** One descriptor of the index, [struct.unpack_from("<QLL", indexdata, 16*i)]
    or ["<LLL"] at [12*i]. *)
Definition tad_entry (use64bit : bool) (indexdata : bytes) (i : nat) : descriptor :=
  if use64bit then
    let e := skipn (16 * i) indexdata in
    (le_int (firstn 8 e), le_int (firstn 4 (skipn 8 e)), le_int (firstn 4 (skipn 12 e)))
  else
    let e := skipn (12 * i) indexdata in
    (le_int (firstn 4 e), le_int (firstn 4 (skipn 4 e)), le_int (firstn 4 (skipn 8 e))).

(** [readtad]: the two header words and the descriptors; leftover bytes only
    print a warning. *)
Definition readtad (use64bit : bool) (t : bytes) : res (Z * Z * list descriptor) :=
  let hdrdata := upto 8 t in
  if Nat.eqb (length hdrdata) 8 then
    let nrdeleted := le_int (firstn 4 hdrdata) in
    let firstdeleted := le_int (skipn 4 hdrdata) in
    let indexdata := from 8 t in
    let w := if use64bit then 16%nat else 12%nat in
    Ret (nrdeleted, firstdeleted,
         map (tad_entry use64bit indexdata) (seq 0 (length indexdata / w)))
  else Raise StructError.

(** [Datafile.__init__] on the two streams. *)
Definition Datafile_init (d t : bytes) : res Datafile :=
  '(hdrunk, version, encoding, blocksize, use64bit) <- readdathdr d ;;
  '(nrdeleted, firstdeleted, idx) <- readtad use64bit t ;;
  Ret (mkDatafile d hdrunk version encoding blocksize use64bit
                  nrdeleted firstdeleted idx (blen d)).

Definition nrofrecords (df : Datafile) : Z := Z.of_nat (length (tadidx df)).

(** [readdata]: seek to [ofs] (never negative: every offset is an unsigned
    field) and read [size] bytes, everything to the end for a negative size.
    This is the read for [0 <= ofs < 2 ^ 63]: at a larger offset, which only
    the u64 fields of a 64-bit archive can hold, [seek] raises, and the
    theorems that conclude a return for every offset assume the bound. *)
Definition readdata (df : Datafile) (ofs size : Z) : bytes :=
  if size <? 0 then from ofs (dat df) else upto size (from ofs (dat df)).

(** ** The compressed-chunk envelope *)

(** The [while o < len(data) - 3] walk of [iscompressed]; [size] is never
    negative, so [o] grows by at least 2 in every round. *)
Fixpoint iscompressed_loop (fuel : nat) (data : bytes) (o : Z) : res bool :=
  if o <? blen data - 3 then
    match fuel with
    | O => OutOfFuel
    | S f =>
        '(size, flag) <- unpack_from_HH data o ;;
        if negb (flag =? 0x800) && negb (flag =? 0x008) then Ret false
        else iscompressed_loop f data (o + (size + 2))
    end
  else Ret true.

(** [iscompressed]: the bare [return] (None) of the source is [false]. *)
Definition iscompressed (data : bytes) : res bool :=
  if blen data <? 11 then Ret false
  else if negb (bytes_eqb (from (blen data - 3) data) [x00; x00; x02]) then Ret false
  else iscompressed_loop (length data) data 0.

Section Reader.

(** [koddecoder.koddecode] and [zlib.decompressobj(-15).decompress]
    ([None]: zlib.error). *)
Variable koddecode : Z -> bytes -> bytes.
Variable inflate : bytes -> option bytes.

Definition zlib_decompress (b : bytes) : res bytes :=
  match inflate b with
  | Some r => Ret r
  | None => Raise ZlibError
  end.

Fixpoint decompress_loop (fuel : nat) (data : bytes) (o : Z) (result : bytes)
  : res bytes :=
  if o <? blen data - 3 then
    match fuel with
    | O => OutOfFuel
    | S f =>
        '(size, flag) <- unpack_from_HH data o ;;
        storedcrc <- unpack_from_L data (o + 4) ;;
        chunk <- zlib_decompress (slice (o + 8) (o + 8 + size - 6) data) ;;
        decompress_loop f data (o + (size + 2)) (result ++ chunk)
    end
  else Ret result.

Definition decompress (data : bytes) : res bytes :=
  decompress_loop (length data) data 0 [].

(** ** readrec *)

(** List indexing [l[i]], negative [i] counting from the end. *)
Definition py_index {A} (l : list A) (i : Z) : res A :=
  let n := Z.of_nat (length l) in
  let j := if i <? 0 then i + n else i in
  if (0 <=? j) && (j <? n) then
    match nth_error l (Z.to_nat j) with
    | Some x => Ret x
    | None => Raise IndexError
    end
  else Raise IndexError.

(** The extension loop of [readrec] (lines 108-111). *)
Fixpoint ext_loop (fuel : nat) (df : Datafile) (extlen extofs : Z) (encdat : bytes)
  : res bytes :=
  if blen encdat <? extlen then
    match fuel with
    | O => OutOfFuel
    | S f =>
        let dat := readdata df extofs (blocksize df) in
        extofs' <- unpack_le 4 (upto 4 dat) ;;
        ext_loop f df extlen extofs' (encdat ++ from 4 dat)
    end
  else Ret encdat.

(** [readrec] from the descriptor to [encdat] (lines 97-114): the bytes
    before deobfuscation and decompression. *)
Definition readrec_enc (fuel : nat) (df : Datafile) (d : descriptor) : res bytes :=
  let '(ofs, ln, chk) := d in
  let flags := Z.shiftr ln 24 in
  let ln := Z.land ln 0xFFFFFFF in
  let dat := readdata df ofs ln in
  if is_empty dat then Ret dat
  else if flags =? 0 then
    '(extofs, extlen) <- unpack_LL (upto 8 dat) ;;
    encdat <- ext_loop fuel df extlen extofs (from 8 dat) ;;
    Ret (upto extlen encdat)
  else Ret dat.

(** Lines 116-119. *)
Definition decode (df : Datafile) (idx : Z) (encdat : bytes) : res bytes :=
  let encdat := if negb (Z.land (encoding df) 1 =? 0)
                then koddecode idx encdat else encdat in
  c <- iscompressed encdat ;;
  if c then decompress encdat else Ret encdat.

(** [readrec] once the descriptor is known (lines 93-121); [None] is the
    bare [return] for a deleted record. *)
Definition readrec_desc (fuel : nat) (df : Datafile) (idx : Z) (d : descriptor)
  : res (option bytes) :=
  let '(ofs, ln, chk) := d in
  if ln =? 0xFFFFFFFF then Ret None
  else
    encdat <- readrec_enc fuel df d ;;
    r <- decode df idx encdat ;;
    Ret (Some r).

Definition readrec (fuel : nat) (df : Datafile) (idx : Z) : res (option bytes) :=
  if idx =? 0 then Raise RecnumNotPositive
  else
    d <- py_index (tadidx df) (idx - 1) ;;
    readrec_desc fuel df idx d.

(** ** dump and enumunreferenced *)

Definition range : Type := Z * Z * string.   (* start, end, desc *)

(** ["%d" % i] *)
Definition fmt_d (i : nat) : string := NilEmpty.string_of_uint (Nat.to_uint i).

(** Python's order on the tuples [(start, end, desc)]. *)
Definition range_leb (a b : range) : bool :=
  let '(s1, e1, d1) := a in
  let '(s2, e2, d2) := b in
  (s1 <? s2) || ((s1 =? s2) && ((e1 <? e2) || ((e1 =? e2) && String.leb d1 d2))).

Fixpoint insert_range (r : range) (l : list range) : list range :=
  match l with
  | [] => [r]
  | x :: l' => if range_leb r x then r :: l else x :: insert_range r l'
  end.

(** [sorted(ranges)] *)
Definition sorted (l : list range) : list range :=
  fold_right insert_range [] l.

(** The [for] loop of [enumunreferenced] and the final test, the yielded
    pairs in order. *)
Fixpoint enum_loop (o : Z) (rs : list range) (filesize : Z) : list (Z * Z) :=
  match rs with
  | [] => if o <? filesize then [(o, filesize - o)] else []
  | (start, end_, desc) :: rs' =>
      (if o <? start then [(o, start - o)] else []) ++ enum_loop end_ rs' filesize
  end.

Definition enumunreferenced (ranges : list range) (filesize : Z) : list (Z * Z) :=
  enum_loop 0 (sorted ranges) filesize.

(** The extension loop of [dump] (lines 176-186), which also records the
    block ranges. *)
Fixpoint dump_ext_loop (fuel : nat) (df : Datafile) (i : nat) (extlen extofs : Z)
    (encdat : bytes) (ranges : list range) : res (bytes * list range) :=
  if blen encdat <? extlen then
    match fuel with
    | O => OutOfFuel
    | S f =>
        let dat := readdata df extofs (blocksize df) in
        let ranges :=
          ranges ++ [(extofs, extofs + blocksize df,
                      ("item #" ++ fmt_d i ++ " ext")%string)] in
        extofs' <- (if use64bit df then unpack_le 8 (upto 8 dat)
                    else unpack_le 4 (upto 4 dat)) ;;
        let o := if use64bit df then 8 else 4 in
        dump_ext_loop f df i extlen extofs' (encdat ++ from o dat) ranges
    end
  else Ret (encdat, ranges).

(** One round of the [for] loop of [dump] for a descriptor that is not
    deleted (lines 155-201): [encdat], [tail] and the ranges. *)
Definition dump_enc (fuel : nat) (df : Datafile) (i : nat) (d : descriptor)
    (ranges : list range) : res (bytes * bytes * list range) :=
  let '(ofs, ln, chk) := d in
  let flags := Z.shiftr ln 24 in
  let ln := Z.land ln 0xFFFFFFF in
  let dat := readdata df ofs ln in
  let ranges := ranges ++ [(ofs, ofs + ln, ("item #" ++ fmt_d i)%string)] in
  if is_empty dat then Ret (dat, [], ranges)
  else if flags =? 0 then
    '(extofs, extlen) <- (if use64bit df then unpack_QL (upto 12 dat)
                          else unpack_LL (upto 8 dat)) ;;
    let o := if use64bit df then 12 else 8 in
    '(encdat, ranges) <- dump_ext_loop fuel df i extlen extofs (from o dat) ranges ;;
    Ret (upto extlen encdat, from extlen encdat, ranges)
  else Ret (dat, [], ranges).

(** What [dump] prints for one descriptor: nothing decoded for a deleted
    one, else the decoded data and the tail. *)
Definition dump_line : Type := option (bytes * bytes).

Fixpoint dump_items (fuel : nat) (df : Datafile) (args_decompress : bool)
    (i : nat) (l : list descriptor) (ranges : list range)
  : res (list dump_line * list range) :=
  match l with
  | [] => Ret ([], ranges)
  | d :: l' =>
      let '(ofs, ln, chk) := d in
      if ln =? 0xFFFFFFFF then
        '(lines, ranges) <- dump_items fuel df args_decompress (S i) l' ranges ;;
        Ret (None :: lines, ranges)
      else
        '(encdat, tail, ranges) <- dump_enc fuel df i d ranges ;;
        let decdat := if negb (Z.land (encoding df) 1 =? 0)
                      then koddecode (Z.of_nat i + 1) encdat else encdat in
        c <- (if args_decompress then iscompressed decdat else Ret false) ;;
        decdat <- (if c then decompress decdat else Ret decdat) ;;
        '(lines, ranges) <- dump_items fuel df args_decompress (S i) l' ranges ;;
        Ret (Some (decdat, tail) :: lines, ranges)
  end.

(** [dump]: the lines, the touched ranges and, with [args.verbose], the
    unreferenced ranges. *)
Definition dump (fuel : nat) (df : Datafile) (args_decompress args_verbose : bool)
  : res (list dump_line * list range * list (Z * Z)) :=
  '(lines, ranges) <- dump_items fuel df args_decompress 0 (tadidx df) [] ;;
  Ret (lines, ranges,
       if args_verbose then enumunreferenced ranges (datsize df) else []).

End Reader.

(** ** The chunk walk, as a relation

    [walk data o o']: the loop of [iscompressed], started at offset [o],
    tests its condition at [o'] after some rounds, each of them at an offset
    below [len(data) - 3] with a flag of 0x0800 or 0x0008. *)

Inductive walk (data : bytes) : Z -> Z -> Prop :=
| walk_here o : walk data o o
| walk_chunk o size flag o' :
    o < blen data - 3 ->
    unpack_from_HH data o = Ret (size, flag) ->
    flag = 0x800 \/ flag = 0x008 ->
    walk data (o + (size + 2)) o' ->
    walk data o o'.

(** ** Ranges and offsets *)

Definition r_start (r : range) : Z := fst (fst r).
Definition r_end (r : range) : Z := snd (fst r).

(** Offset [x] lies in the touched range [r], in the yielded pair
    [(o, l)]. *)
Definition in_range (x : Z) (r : range) : Prop := r_start r <= x < r_end r.
Definition in_yield (x : Z) (y : Z * Z) : Prop := fst y <= x < fst y + snd y.

(** The yielded pairs are non-empty, start at or after [m], and each starts
    at or after the end of the one before. *)
Fixpoint chain (m : Z) (ys : list (Z * Z)) : Prop :=
  match ys with
  | [] => True
  | (a, l) :: ys' => m <= a /\ 0 < l /\ chain (a + l) ys'
  end.

(** The order of [sorted] on the first two components. *)
Definition range_le (a b : range) : Prop :=
  r_start a <= r_start b /\ (r_start a = r_start b -> r_end a <= r_end b).

(** ** Sample archives *)

Definition zeros (n : nat) : bytes := repeat x00 n.
Definition hello : bytes := [x48; x65; x6c; x6c; x6f].

(** An identity [koddecode] and a stored-only inflate, to run [readrec] on
    archives that are neither obfuscated nor compressed. *)
Definition kod_plain (i : Z) (b : bytes) : bytes := b.
Definition inflate_stored (b : bytes) : option bytes := Some b.

(** Test data: the byte of a number below 256, a number as [w]
    little-endian bytes, and a 19-byte container header. *)
Definition bz (n : Z) : byte :=
  match Byte.of_N (Z.to_N n) with Some b => b | None => x00 end.

Fixpoint le_bytes (w : nat) (n : Z) : bytes :=
  match w with
  | O => []
  | S w' => bz (n mod 256) :: le_bytes w' (n / 256)
  end.

Definition dat_header (version : bytes) (encoding blocksize : Z) : bytes :=
  magic_CroFile ++ le_bytes 2 0 ++ version ++ le_bytes 2 encoding
    ++ le_bytes 2 blocksize.

Definition v0105 : bytes := [x30; x31; x2e; x30; x35].

(** A 32-bit archive with four slots: the inline record "Hello" at offset
    32, a deleted slot, and two slots at the same offset whose
    length_and_flags are 0x01000002 and 0x01000000. *)
Definition a32_dat : bytes := dat_header v0102 0 0x40 ++ zeros 13 ++ hello.
Definition a32_tad : bytes :=
  zeros 8 ++ le_bytes 4 32 ++ le_bytes 4 0x80000005 ++ le_bytes 4 0
          ++ le_bytes 4 0 ++ le_bytes 4 0xFFFFFFFF ++ le_bytes 4 0
          ++ le_bytes 4 32 ++ le_bytes 4 0x01000002 ++ le_bytes 4 0
          ++ le_bytes 4 32 ++ le_bytes 4 0x01000000 ++ le_bytes 4 0.
Definition a32 : Datafile :=
  mkDatafile a32_dat 0 v0102 0 0x40 false 0 0
    [(32, 0x80000005, 0); (0, 0xFFFFFFFF, 0); (32, 0x01000002, 0);
     (32, 0x01000000, 0)] 37.

(** A test double for [koddecode] whose result depends on the record
    index: every byte is shifted by the index, modulo 256. *)
Definition kod_shift (i : Z) (b : bytes) : bytes :=
  map (fun x => bz ((Z.of_N (Byte.to_N x) + i) mod 256)) b.

(** [a32] with encoding bit 0 set. *)
Definition a32k : Datafile :=
  mkDatafile (dat_header v0102 1 0x40 ++ zeros 13 ++ hello) 0 v0102 1 0x40 false 0 0
    [(32, 0x80000005, 0); (0, 0xFFFFFFFF, 0); (32, 0x01000002, 0);
     (32, 0x01000000, 0)] 37.

(** A 32-bit archive with blocksize 4. Its one record, at offset 32, is
    extended: prefix next = 48, total = 16, then 4 payload bytes; the block
    at offset 48 is the pointer 48, to itself. *)
Definition loop_payload : bytes := [x01; x02; x03; x04].
Definition loop_dat : bytes :=
  dat_header v0102 0 4 ++ zeros 13
    ++ le_bytes 4 48 ++ le_bytes 4 16 ++ loop_payload
    ++ zeros 4 ++ le_bytes 4 48.
Definition loop_tad : bytes :=
  zeros 8 ++ le_bytes 4 32 ++ le_bytes 4 12 ++ le_bytes 4 0.
Definition a_loop : Datafile :=
  mkDatafile loop_dat 0 v0102 0 4 false 0 0 [(32, 12, 0)] 52.

(** A 32-bit archive with blocksize 2 and the same record. *)
Definition a_bs2 : Datafile :=
  mkDatafile (dat_header v0102 0 2 ++ skipn 19 loop_dat) 0 v0102 0 2 false 0 0
    [(32, 12, 0)] 52.

(** A 64-bit archive (version 01.03). Its one record, at offset 32, is
    extended: the 12-byte prefix next = 0 (u64), total = 5 (u32), then the
    payload "Hello". *)
Definition a64_dat : bytes :=
  dat_header v0103 0 0x40 ++ zeros 13 ++ le_bytes 8 0 ++ le_bytes 4 5 ++ hello.
Definition a64_tad : bytes :=
  zeros 8 ++ le_bytes 8 32 ++ le_bytes 4 17 ++ le_bytes 4 0.
Definition a64 : Datafile :=
  mkDatafile a64_dat 0 v0103 0 0x40 true 0 0 [(32, 17, 0)] 49.

(** A 32-bit archive with blocksize 0x40 and one extended record at offset
    32: prefix next = 64, total = 20, 8 payload bytes; the block at 64 is
    the pointer 0 and 60 bytes. *)
Definition ext_dat : bytes :=
  dat_header v0102 0 0x40 ++ zeros 13
    ++ le_bytes 4 64 ++ le_bytes 4 20 ++ repeat x41 8
    ++ zeros 16 ++ le_bytes 4 0 ++ repeat x42 60.
Definition ext_tad : bytes :=
  zeros 8 ++ le_bytes 4 32 ++ le_bytes 4 16 ++ le_bytes 4 0.
Definition a_ext : Datafile :=
  mkDatafile ext_dat 0 v0102 0 0x40 false 0 0 [(32, 16, 0)] 128.

(** A 32-bit archive with two inline records, the second inside the
    first: bytes 32..37 and bytes 33..35 of a container of 40 bytes. *)
Definition nested_dat : bytes :=
  dat_header v0102 0 0x40 ++ zeros 13 ++ hello ++ zeros 3.
Definition nested_tad : bytes :=
  zeros 8 ++ le_bytes 4 32 ++ le_bytes 4 0x80000005 ++ le_bytes 4 0
          ++ le_bytes 4 33 ++ le_bytes 4 0x80000002 ++ le_bytes 4 0.
Definition a_nested : Datafile :=
  mkDatafile nested_dat 0 v0102 0 0x40 false 0 0
    [(32, 0x80000005, 0); (33, 0x80000002, 0)] 40.

(** A 32-bit archive with encoding bit 0 set and one empty inline record. *)
Definition empty_dat : bytes := dat_header v0102 1 0x40.
Definition empty_tad : bytes :=
  zeros 8 ++ le_bytes 4 0 ++ le_bytes 4 0x80000000 ++ le_bytes 4 0.
Definition a_empty : Datafile :=
  mkDatafile empty_dat 0 v0102 1 0x40 false 0 0 [(0, 0x80000000, 0)] 19.

(** ** The index format, written

    The inverse of [readtad]: [struct.pack] of one descriptor as "<QLL" or
    "<LLL", and of a whole .tad stream. [fits w n]: [n] is an unsigned
    number of [w] bytes. *)
Definition fits (w : nat) (n : Z) : Prop := 0 <= n < 256 ^ Z.of_nat w.

Definition desc_fits (use64bit : bool) (d : descriptor) : Prop :=
  let '(ofs, ln, chk) := d in
  fits (if use64bit then 8 else 4) ofs /\ fits 4 ln /\ fits 4 chk.

Definition pack_entry (use64bit : bool) (d : descriptor) : bytes :=
  let '(ofs, ln, chk) := d in
  le_bytes (if use64bit then 8 else 4) ofs ++ le_bytes 4 ln ++ le_bytes 4 chk.

Definition pack_tad (use64bit : bool) (nrdeleted firstdeleted : Z)
    (ds : list descriptor) : bytes :=
  le_bytes 4 nrdeleted ++ le_bytes 4 firstdeleted
    ++ concat (map (pack_entry use64bit) ds).

(** The width of a descriptor. *)
Definition tad_width (use64bit : bool) : nat := if use64bit then 16%nat else 12%nat.

(** ** Extension chains that make progress

    [good_walk df extlen extofs encdat]: from this state of the extension
    loop, every block that the loop reads before the payload reaches
    [extlen] has more than the 4 bytes of its pointer. *)
Inductive good_walk (df : Datafile) (extlen : Z) : Z -> bytes -> Prop :=
| good_done extofs encdat :
    extlen <= blen encdat -> good_walk df extlen extofs encdat
| good_block extofs encdat :
    blen encdat < extlen ->
    4 < blen (readdata df extofs (blocksize df)) ->
    good_walk df extlen
      (le_int (upto 4 (readdata df extofs (blocksize df))))
      (encdat ++ from 4 (readdata df extofs (blocksize df))) ->
    good_walk df extlen extofs encdat.

(** ** Results and ranges, for comparing [dump] with [readrec] *)

Definition res_map {A B} (f : A -> B) (m : res A) : res B :=
  x <- m ;; Ret (f x).

(** A range starts at an offset that is not negative and does not end
    before it starts. *)
Definition range_ok (r : range) : Prop := 0 <= r_start r <= r_end r.

(** ** The chunk envelope, written

    The format the docstring of [decompress] gives: each chunk is a
    big-endian size (of flag, crc and data), a big-endian flag, four bytes
    of crc and the compressed data; three bytes 00 00 02 end the record. *)
Definition be_bytes2 (n : Z) : bytes := [bz (n / 256); bz (n mod 256)].

Record chunk : Type := mkChunk { c_flag : Z; c_crc : bytes; c_data : bytes }.

Definition pack_chunk (c : chunk) : bytes :=
  be_bytes2 (blen (c_data c) + 6) ++ be_bytes2 (c_flag c) ++ c_crc c ++ c_data c.

Definition envelope (cs : list chunk) : bytes :=
  concat (map pack_chunk cs) ++ [x00; x00; x02].

Definition chunk_ok (c : chunk) : Prop :=
  (c_flag c = 0x800 \/ c_flag c = 0x008) /\ length (c_crc c) = 4%nat /\
  blen (c_data c) + 6 < 65536.

(** ** croconvert.safename

    A Python string is the list of its code points; [s.replace(old, new)]
    for a one-character [old] replaces every occurrence. The characters
    are ':' (58), '/' (47), the backslash (92) and '_' (95). *)
Definition pystr : Type := list Z.

Definition str_replace1 (old new : Z) (s : pystr) : pystr :=
  map (fun c => if c =? old then new else c) s.

Definition safename (name : pystr) : pystr :=
  str_replace1 92 95 (str_replace1 47 95 (str_replace1 58 95 name)).

(** A character that [safename] replaces. *)
Definition unsafe_char (c : Z) : bool := (c =? 58) || (c =? 47) || (c =? 92).

(** One chunk with flag 0x0800, a crc of four arbitrary bytes and the data
    "Hello", and a 32-bit archive whose one inline record, at offset 32, is
    the envelope of that chunk. *)
Definition hello_chunk : chunk := mkChunk 0x800 [xde; xad; xbe; xef] hello.
Definition comp_dat : bytes :=
  dat_header v0102 0 0x40 ++ zeros 13 ++ envelope [hello_chunk].
Definition comp_tad : bytes :=
  zeros 8 ++ le_bytes 4 32 ++ le_bytes 4 0x80000010 ++ le_bytes 4 0.
Definition a_comp : Datafile :=
  mkDatafile comp_dat 0 v0102 0 0x40 false 0 0 [(32, 0x80000010, 0)] 48.

(** The 19-byte container header, written: [struct.pack("<8sH5sHH", ...)]
    with the magic. *)
Definition pack_header (hdrunk : Z) (version : bytes) (encoding blocksize : Z)
  : bytes :=
  magic_CroFile ++ le_bytes 2 hdrunk ++ version ++ le_bytes 2 encoding
    ++ le_bytes 2 blocksize.

(** ** The extension chain, as data

    [ext_chain df n extofs]: the first [n] blocks of the chain that starts
    at [extofs], each with the offset it is read at and its payload, the
    block without its leading next-pointer; the pointer has the width of
    the archive (8 bytes in a 64-bit archive, 4 otherwise) and gives the
    offset of the next block. *)
Fixpoint ext_chain (df : Datafile) (n : nat) (extofs : Z) : list (Z * bytes) :=
  match n with
  | O => []
  | S k =>
      let dat := readdata df extofs (blocksize df) in
      let o := if use64bit df then 8 else 4 in
      (extofs, from o dat) :: ext_chain df k (le_int (upto o dat))
  end.

(** The range [dump] records for a block of item [i]. *)
Definition ext_range (df : Datafile) (i : nat) (pb : Z * bytes) : range :=
  (fst pb, fst pb + blocksize df, ("item #" ++ fmt_d i ++ " ext")%string).

(** A 64-bit archive with blocksize 0x40 and one extended record at offset
    32: the 12-byte prefix next = 64 (u64), total = 20 (u32), then 8
    payload bytes; the block at 64 is the 8-byte pointer 0 and 56 bytes. *)
Definition ext64_dat : bytes :=
  dat_header v0103 0 0x40 ++ zeros 13
    ++ le_bytes 8 64 ++ le_bytes 4 20 ++ repeat x41 8
    ++ zeros 12 ++ le_bytes 8 0 ++ repeat x42 56.
Definition ext64_tad : bytes :=
  zeros 8 ++ le_bytes 8 32 ++ le_bytes 4 20 ++ le_bytes 4 0.
Definition a64x : Datafile :=
  mkDatafile ext64_dat 0 v0103 0 0x40 true 0 0 [(32, 20, 0)] 128.

(** ** Basic facts *)

Lemma le_int_nonneg b : 0 <= le_int b.
Proof.
  induction b as [|x r IH]; cbn [le_int]; [lia|].
  pose proof (N2Z.is_nonneg (Byte.to_N x)). lia.
Qed.

Lemma be_int_nonneg b : 0 <= be_int b.
Proof. apply le_int_nonneg. Qed.

Lemma bytes_eqb_eq a b : bytes_eqb a b = true <-> a = b.
Proof.
  revert b; induction a as [|x a IH]; intros [|y b]; simpl; split; try easy.
  - rewrite andb_true_iff, IH. intros [H ->].
    apply Byte.byte_dec_bl in H. now subst.
  - intros E; inversion E; subst. rewrite andb_true_iff, IH. split; [|easy].
    now apply Byte.byte_dec_lb.
Qed.

Lemma bytes_eqb_neq a b : bytes_eqb a b = false <-> a <> b.
Proof.
  rewrite <- bytes_eqb_eq. destruct (bytes_eqb a b); split; congruence.
Qed.

Lemma blen_nonneg b : 0 <= blen b.
Proof. unfold blen; lia. Qed.

Lemma blen_app a b : blen (a ++ b) = blen a + blen b.
Proof. unfold blen. rewrite length_app. lia. Qed.

Lemma blen_upto n b : 0 <= n <= blen b -> blen (upto n b) = n.
Proof. unfold blen, upto. intros H. rewrite length_firstn. lia. Qed.

Lemma blen_upto_le n b : blen (upto n b) <= blen b.
Proof. unfold blen, upto. rewrite length_firstn. lia. Qed.

Lemma blen_from n b : 0 <= n -> blen (from n b) = Z.max 0 (blen b - n).
Proof. unfold blen, from. intros H. rewrite length_skipn. lia. Qed.

Lemma is_empty_true b : is_empty b = true <-> b = [].
Proof. destruct b; simpl; split; congruence. Qed.

Lemma field_at_ok w data o :
  0 <= o -> o + Z.of_nat w <= blen data ->
  exists b, field_at w data o = Ret b /\ length b = w.
Proof.
  intros Ho Hl. unfold field_at.
  assert (E : length (firstn w (from o data)) = w).
  { unfold from. rewrite length_firstn, length_skipn. unfold blen in Hl. lia. }
  rewrite E, Nat.eqb_refl. eauto.
Qed.

Lemma unpack_from_HH_ok data o :
  0 <= o -> o < blen data - 3 ->
  exists size flag, unpack_from_HH data o = Ret (size, flag) /\ 0 <= size.
Proof.
  intros Ho Hl. unfold unpack_from_HH.
  destruct (field_at_ok 4 data o) as (b & E & _); [lia | simpl; lia |].
  rewrite E. simpl. do 2 eexists. split; [reflexivity | apply be_int_nonneg].
Qed.

Lemma unpack_from_HH_size data o size flag :
  unpack_from_HH data o = Ret (size, flag) -> 0 <= size.
Proof.
  unfold unpack_from_HH. destruct (field_at 4 data o); simpl; try discriminate.
  intros E; inversion E. apply be_int_nonneg.
Qed.

(** ** iscompressed *)

Lemma walk_le data o o' : walk data o o' -> o <= o'.
Proof.
  induction 1 as [o|o size flag o' _ E _ _ IH]; [lia|].
  apply unpack_from_HH_size in E. lia.
Qed.

Lemma iscompressed_loop_sound fuel data : forall o,
  iscompressed_loop fuel data o = Ret true ->
  exists o', walk data o o' /\ blen data - 3 <= o'.
Proof.
  induction fuel as [|f IH]; intros o; cbn [iscompressed_loop];
    destruct (Z.ltb_spec o (blen data - 3)) as [Hlt|Hge]; try discriminate;
    try (intros _; exists o; split; [constructor | lia]).
  destruct (unpack_from_HH data o) as [[size flag]| |] eqn:E; cbn [bind];
    try discriminate.
  destruct (Z.eqb_spec flag 0x800) as [F1|F1];
    destruct (Z.eqb_spec flag 0x008) as [F2|F2]; cbn [negb andb];
    try discriminate; intros H; apply IH in H; destruct H as (o' & W & Ho');
    exists o'; (split; [|exact Ho']); eapply walk_chunk; eauto.
Qed.

Lemma iscompressed_loop_complete data o o' :
  walk data o o' -> blen data - 3 <= o' ->
  forall fuel, blen data - 3 - o <= Z.of_nat fuel ->
  iscompressed_loop fuel data o = Ret true.
Proof.
  induction 1 as [o|o size flag o' Hlt E F _ IH]; intros Ho' fuel Hf.
  - destruct fuel; cbn [iscompressed_loop];
      destruct (Z.ltb_spec o (blen data - 3)); (reflexivity || lia).
  - destruct fuel as [|f]; [lia|]. cbn [iscompressed_loop].
    destruct (Z.ltb_spec o (blen data - 3)); [|lia].
    rewrite E; cbn [bind].
    pose proof (unpack_from_HH_size _ _ _ _ E).
    replace (negb (flag =? 0x800) && negb (flag =? 0x008)) with false.
    + apply IH; [exact Ho' | lia].
    + destruct F; subst; reflexivity.
Qed.

Lemma iscompressed_loop_total fuel data : forall o,
  0 <= o -> blen data - 3 - o <= Z.of_nat fuel ->
  exists b, iscompressed_loop fuel data o = Ret b.
Proof.
  induction fuel as [|f IH]; intros o Ho Hf; cbn [iscompressed_loop];
    destruct (Z.ltb_spec o (blen data - 3)) as [Hlt|Hge]; eauto; try lia.
  destruct (unpack_from_HH_ok data o Ho Hlt) as (size & flag & E & Hs).
  rewrite E; cbn [bind].
  destruct (negb (flag =? 0x800) && negb (flag =? 0x008)); eauto.
  apply IH; lia.
Qed.

Lemma iscompressed_total data : exists b, iscompressed data = Ret b.
Proof.
  unfold iscompressed.
  destruct (blen data <? 11); eauto.
  destruct (negb _); eauto.
  apply iscompressed_loop_total; unfold blen; lia.
Qed.

(** C4 (amended): [iscompressed] always returns, and it returns true exactly
    when the data has at least 11 bytes, ends with 00 00 02, and the chunk
    walk from offset 0 (big-endian size and flag, flag 0x0800 or 0x0008 at
    every offset below [len - 3] that it visits, advancing by [size + 2])
    reaches some offset at or beyond [len - 3]: the walk need not land on
    [len - 3] itself. *)
Theorem iscompressed_iff data :
  (iscompressed data = Ret true \/ iscompressed data = Ret false) /\
  (iscompressed data = Ret true <->
   11 <= blen data /\
   from (blen data - 3) data = [x00; x00; x02] /\
   exists o, walk data 0 o /\ blen data - 3 <= o).
Proof.
  split.
  - destruct (iscompressed_total data) as [[|] E]; auto.
  - unfold iscompressed.
    destruct (Z.ltb_spec (blen data) 11) as [Hl|Hl].
    { split; [discriminate | lia]. }
    destruct (bytes_eqb (from (blen data - 3) data) [x00; x00; x02]) eqn:Et;
      cbn [negb].
    + apply bytes_eqb_eq in Et. split.
      * intros H. apply iscompressed_loop_sound in H. auto.
      * intros (_ & _ & o & W & Ho).
        eapply iscompressed_loop_complete; eauto. unfold blen. lia.
    + apply bytes_eqb_neq in Et. split; [discriminate | tauto].
Qed.

(** C4 (counterexample): eleven bytes ending in 00 00 02 whose first chunk
    has size 7 and flag 0x0800. The walk goes from 0 to 9, past
    [len - 3 = 8]; it never stands on 8, and [iscompressed] returns true. *)
Lemma iscompressed_overshoot :
  let data := [x00; x07; x08; x00; x00; x00; x00; x00; x00; x00; x02] in
  iscompressed data = Ret true /\
  blen data = 11 /\
  from (blen data - 3) data = [x00; x00; x02] /\
  ~ walk data 0 (blen data - 3).
Proof.
  cbv zeta. repeat split.
  intros W. inversion W as [|o size flag o' Hlt E F W']; subst.
  vm_compute in E. inversion E; subst.
  apply walk_le in W'. vm_compute in W'. apply W'. reflexivity.
Qed.

(** ** Construction *)

Lemma header_version d :
  (19 <= length d)%nat ->
  firstn 5 (skipn 10 (upto 19 d)) = firstn 5 (skipn 10 d).
Proof.
  intros _. unfold upto. rewrite skipn_firstn_comm, firstn_firstn. reflexivity.
Qed.

Lemma readtad_ok use64 t :
  (8 <= length t)%nat -> exists r, readtad use64 t = Ret r.
Proof.
  intros H. unfold readtad.
  assert (E : length (upto 8 t) = 8%nat).
  { unfold upto. rewrite length_firstn. simpl Z.to_nat. lia. }
  rewrite E. simpl. eauto.
Qed.

(** C3 (amended): on a container of at least 19 bytes that starts with the
    magic, and an index of at least 8 bytes, construction raises the
    explicit error for version 01.11 and succeeds for every other version
    string, listed or not: 01.03 selects 64-bit offsets, every other
    string 32-bit offsets. There is no "unknown format" rejection. *)
Theorem Datafile_init_version d t :
  (19 <= length d)%nat -> firstn 8 d = magic_CroFile -> (8 <= length t)%nat ->
  let v := firstn 5 (skipn 10 d) in
  (v = v0111 -> Datafile_init d t = Raise V0111NotSupported) /\
  (v <> v0111 ->
   exists df, Datafile_init d t = Ret df /\ version df = v /\
              use64bit df = bytes_eqb v v0103).
Proof.
  intros Hd Hm Ht v.
  assert (E : length (upto 19 d) = 19%nat).
  { unfold upto. rewrite length_firstn. simpl Z.to_nat. lia. }
  assert (M : bytes_eqb (firstn 8 (upto 19 d)) magic_CroFile = true).
  { apply bytes_eqb_eq. unfold upto. rewrite firstn_firstn. exact Hm. }
  unfold Datafile_init, readdathdr. rewrite E, Nat.eqb_refl, M.
  cbn [negb]. rewrite (header_version d Hd). fold v.
  split; intros Hv.
  - apply bytes_eqb_eq in Hv. rewrite Hv. reflexivity.
  - apply bytes_eqb_neq in Hv. rewrite Hv. cbn [bind].
    destruct (readtad_ok (bytes_eqb v v0103) t Ht) as ([[nd fd] idx] & R).
    rewrite R. cbn [bind]. eexists. split; [reflexivity|]. split; reflexivity.
Qed.

(** The hypotheses of [Datafile_init_version] hold of a header with
    version 01.05 and an empty index. *)
Lemma Datafile_init_version_witness :
  exists df, Datafile_init (dat_header v0105 1 0x40) (zeros 8) = Ret df /\
             version df = v0105 /\ use64bit df = false.
Proof.
  refine (proj2 (Datafile_init_version (dat_header v0105 1 0x40) (zeros 8) _ _ _) _).
  - simpl. lia.
  - reflexivity.
  - simpl. lia.
  - discriminate.
Defined.

(** C3 (counterexample): version 01.05 is not one of 01.02, 01.03, 01.04,
    and construction succeeds on it, as a 32-bit archive. *)
Lemma Datafile_init_accepts_0105 :
  ~ In v0105 [v0102; v0103; v0104] /\
  Datafile_init (dat_header v0105 1 0x40) (zeros 8) =
  Ret (mkDatafile (dat_header v0105 1 0x40) 0 v0105 1 0x40 false 0 0 [] 19).
Proof.
  split; [|reflexivity].
  simpl. intros [H|[H|[H|[]]]]; discriminate H.
Qed.

(** ** readrec: the index *)

Lemma py_index_nonneg {A} (l : list A) i :
  0 <= i < Z.of_nat (length l) ->
  exists x, nth_error l (Z.to_nat i) = Some x /\ py_index l i = Ret x.
Proof.
  intros H. unfold py_index.
  destruct (Z.ltb_spec i 0); [lia|].
  destruct (Z.leb_spec 0 i); [|lia].
  destruct (Z.ltb_spec i (Z.of_nat (length l))); [|lia]. cbn [andb].
  destruct (nth_error l (Z.to_nat i)) as [x|] eqn:E; eauto.
  apply nth_error_None in E. lia.
Qed.

Lemma py_index_negative {A} (l : list A) i :
  - Z.of_nat (length l) <= i < 0 ->
  exists x, nth_error l (Z.to_nat (Z.of_nat (length l) + i)) = Some x /\
            py_index l i = Ret x.
Proof.
  intros H. unfold py_index.
  destruct (Z.ltb_spec i 0); [|lia].
  destruct (Z.leb_spec 0 (i + Z.of_nat (length l))); [|lia].
  destruct (Z.ltb_spec (i + Z.of_nat (length l)) (Z.of_nat (length l))); [|lia].
  cbn [andb]. rewrite (Z.add_comm i).
  destruct (nth_error l (Z.to_nat (Z.of_nat (length l) + i))) as [x|] eqn:E; eauto.
  apply nth_error_None in E. lia.
Qed.

Lemma py_index_past_end {A} (l : list A) i :
  Z.of_nat (length l) <= i -> py_index l i = Raise IndexError.
Proof.
  intros H. unfold py_index.
  destruct (Z.ltb_spec i 0); [lia|].
  destruct (Z.ltb_spec i (Z.of_nat (length l))); [lia|].
  rewrite andb_false_r. reflexivity.
Qed.

Section ReaderFacts.

Variable koddecode : Z -> bytes -> bytes.
Variable inflate : bytes -> option bytes.

(** C7: [readrec] raises for index 0 ("recnum must be a positive number")
    and for an index above the number of records (IndexError), the two
    errors of an invalid index; for an index in [1, nrofrecords] whose
    descriptor has length_and_flags 0xFFFFFFFF it returns None. *)
Theorem readrec_index fuel df idx :
  (idx = 0 -> readrec koddecode inflate fuel df idx = Raise RecnumNotPositive) /\
  (nrofrecords df < idx ->
   readrec koddecode inflate fuel df idx = Raise IndexError) /\
  (1 <= idx <= nrofrecords df ->
   forall ofs chk,
     nth_error (tadidx df) (Z.to_nat (idx - 1)) = Some (ofs, 0xFFFFFFFF, chk) ->
     readrec koddecode inflate fuel df idx = Ret None).
Proof.
  unfold readrec, nrofrecords. repeat split.
  - intros ->. reflexivity.
  - intros H. destruct (Z.eqb_spec idx 0); [lia|].
    rewrite py_index_past_end by lia. reflexivity.
  - intros H ofs chk E. destruct (Z.eqb_spec idx 0); [lia|].
    destruct (py_index_nonneg (tadidx df) (idx - 1)) as (x & Ex & ->); [lia|].
    rewrite E in Ex. inversion Ex; subst. reflexivity.
Qed.

(** *** Which errors the record path can raise *)

Lemma unpack_le_raise w b e : unpack_le w b = Raise e -> e = StructError.
Proof. unfold unpack_le. destruct (Nat.eqb _ _); congruence. Qed.

Lemma unpack_LL_raise b e : unpack_LL b = Raise e -> e = StructError.
Proof. unfold unpack_LL. destruct (Nat.eqb _ _); congruence. Qed.

Lemma field_at_raise w data o e : field_at w data o = Raise e -> e = StructError.
Proof. unfold field_at. destruct (Nat.eqb _ _); congruence. Qed.

Lemma unpack_from_HH_raise data o e :
  unpack_from_HH data o = Raise e -> e = StructError.
Proof.
  unfold unpack_from_HH. destruct (field_at 4 data o) eqn:E; cbn [bind];
    try discriminate. intros H; inversion H; subst.
  eapply field_at_raise; eauto.
Qed.

Lemma unpack_from_L_raise data o e :
  unpack_from_L data o = Raise e -> e = StructError.
Proof.
  unfold unpack_from_L. destruct (field_at 4 data o) eqn:E; cbn [bind];
    try discriminate. intros H; inversion H; subst.
  eapply field_at_raise; eauto.
Qed.

Lemma ext_loop_raise fuel df extlen : forall extofs encdat e,
  ext_loop fuel df extlen extofs encdat = Raise e -> e = StructError.
Proof.
  induction fuel as [|f IH]; intros extofs encdat e; cbn [ext_loop];
    destruct (blen encdat <? extlen); try discriminate.
  destruct (unpack_le 4 _) eqn:E; cbn [bind]; try discriminate.
  - apply IH.
  - intros H; inversion H; subst. eapply unpack_le_raise; eauto.
Qed.

Lemma readrec_enc_raise fuel df d e :
  readrec_enc fuel df d = Raise e -> e = StructError.
Proof.
  destruct d as [[ofs ln] chk]. unfold readrec_enc.
  destruct (is_empty _); [discriminate|].
  destruct (Z.shiftr ln 24 =? 0); [|discriminate].
  destruct (unpack_LL _) as [[extofs extlen]| |] eqn:E; cbn [bind];
    try discriminate.
  - destruct (ext_loop _ _ _ _ _) eqn:L; cbn [bind]; try discriminate.
    intros H; inversion H; subst. eapply ext_loop_raise; eauto.
  - intros H; inversion H; subst. eapply unpack_LL_raise; eauto.
Qed.

Lemma decompress_loop_raise fuel data : forall o result e,
  decompress_loop inflate fuel data o result = Raise e ->
  e = StructError \/ e = ZlibError.
Proof.
  induction fuel as [|f IH]; intros o result e; cbn [decompress_loop];
    destruct (o <? blen data - 3); try discriminate.
  destruct (unpack_from_HH data o) as [[size flag]| |] eqn:E1; cbn [bind];
    try discriminate.
  2:{ intros H; inversion H; subst. left. eapply unpack_from_HH_raise; eauto. }
  destruct (unpack_from_L data (o + 4)) eqn:E2; cbn [bind]; try discriminate.
  2:{ intros H; inversion H; subst. left. eapply unpack_from_L_raise; eauto. }
  unfold zlib_decompress. destruct (inflate _); cbn [bind].
  - apply IH.
  - intros H; inversion H; subst. now right.
Qed.

Lemma unpack_from_L_fuel data o : unpack_from_L data o <> OutOfFuel.
Proof.
  unfold unpack_from_L, field_at. destruct (Nat.eqb _ _); discriminate.
Qed.

(** The fuel [decompress] gives its loop is enough. *)
Lemma decompress_loop_fuel fuel data : forall o result,
  0 <= o -> blen data - 3 - o <= Z.of_nat fuel ->
  decompress_loop inflate fuel data o result <> OutOfFuel.
Proof.
  induction fuel as [|f IH]; intros o result Ho Hf; cbn [decompress_loop];
    destruct (Z.ltb_spec o (blen data - 3)) as [Hlt|Hge];
    try discriminate; try lia.
  destruct (unpack_from_HH_ok data o Ho Hlt) as (size & flag & E & Hs).
  rewrite E; cbn [bind].
  pose proof (unpack_from_L_fuel data (o + 4)) as HL.
  destruct (unpack_from_L data (o + 4)); cbn [bind];
    try discriminate; try contradiction.
  unfold zlib_decompress. destruct (inflate _); cbn [bind]; [|discriminate].
  apply IH; lia.
Qed.

Lemma decompress_fuel data : decompress inflate data <> OutOfFuel.
Proof. apply decompress_loop_fuel; unfold blen; lia. Qed.

Lemma decode_raise df idx encdat e :
  decode koddecode inflate df idx encdat = Raise e ->
  e = StructError \/ e = ZlibError.
Proof.
  unfold decode.
  destruct (iscompressed_total
              (if negb (Z.land (encoding df) 1 =? 0)
               then koddecode idx encdat else encdat)) as [c ->].
  cbn [bind]. destruct c; [|discriminate].
  apply decompress_loop_raise.
Qed.

Lemma readrec_desc_raise fuel df idx d e :
  readrec_desc koddecode inflate fuel df idx d = Raise e ->
  e = StructError \/ e = ZlibError.
Proof.
  destruct d as [[ofs ln] chk]. unfold readrec_desc.
  destruct (ln =? 0xFFFFFFFF); [discriminate|].
  destruct (readrec_enc fuel df (ofs, ln, chk)) eqn:E; cbn [bind];
    try discriminate.
  - destruct (decode koddecode inflate df idx a) eqn:D; cbn [bind];
      try discriminate.
    intros H; inversion H; subst. eapply decode_raise; eauto.
  - intros H; inversion H; subst. left. eapply readrec_enc_raise; eauto.
Qed.

(** C10: for a negative index [idx] with
    [-(nrofrecords - 1) <= idx <= -1], [readrec] raises neither error of
    an invalid index: it takes the descriptor at position
    [nrofrecords + idx - 1] and decodes that record as [readrec_desc] does,
    with [idx] itself, the negative number, as the key of [koddecode]. *)
Theorem readrec_negative_index fuel df idx :
  - (nrofrecords df - 1) <= idx <= -1 ->
  exists d,
    nth_error (tadidx df) (Z.to_nat (nrofrecords df + idx - 1)) = Some d /\
    readrec koddecode inflate fuel df idx =
      readrec_desc koddecode inflate fuel df idx d /\
    readrec koddecode inflate fuel df idx <> Raise RecnumNotPositive /\
    readrec koddecode inflate fuel df idx <> Raise IndexError /\
    (forall encdat,
        snd (fst d) <> 0xFFFFFFFF ->
        readrec_enc fuel df d = Ret encdat ->
        Z.land (encoding df) 1 <> 0 ->
        readrec koddecode inflate fuel df idx =
          (c <- iscompressed (koddecode idx encdat) ;;
           r <- (if c then decompress inflate (koddecode idx encdat)
                 else Ret (koddecode idx encdat)) ;;
           Ret (Some r))).
Proof.
  unfold nrofrecords. intros H.
  destruct (py_index_negative (tadidx df) (idx - 1)) as (d & Ed & Ei); [lia|].
  exists d.
  assert (R : readrec koddecode inflate fuel df idx =
              readrec_desc koddecode inflate fuel df idx d).
  { unfold readrec. destruct (Z.eqb_spec idx 0); [lia|]. rewrite Ei. reflexivity. }
  split; [|split; [exact R|split; [|split]]].
  - rewrite <- Ed. f_equal. lia.
  - rewrite R. intros E. apply readrec_desc_raise in E. destruct E; discriminate.
  - rewrite R. intros E. apply readrec_desc_raise in E. destruct E; discriminate.
  - intros encdat Hd He Hk. rewrite R. destruct d as [[ofs ln] chk].
    cbn [fst snd] in Hd. unfold readrec_desc.
    destruct (Z.eqb_spec ln 0xFFFFFFFF); [contradiction|].
    rewrite He. cbn [bind]. unfold decode.
    destruct (Z.eqb_spec (Z.land (encoding df) 1) 0); [contradiction|].
    cbn [negb]. destruct (iscompressed (koddecode idx encdat)); reflexivity.
Qed.

(** *** The extension loop *)

Lemma readdata_short df ofs size :
  0 <= size -> blen (readdata df ofs size) <= size.
Proof.
  intros H. unfold readdata. destruct (Z.ltb_spec size 0); [lia|].
  unfold blen, upto. rewrite length_firstn. lia.
Qed.

Lemma ext_loop_length fuel df extlen : forall extofs encdat r,
  ext_loop fuel df extlen extofs encdat = Ret r -> extlen <= blen r.
Proof.
  induction fuel as [|f IH]; intros extofs encdat r; cbn [ext_loop];
    destruct (Z.ltb_spec (blen encdat) extlen); try discriminate;
    try (intros E; inversion E; subst; assumption).
  destruct (unpack_le 4 _); cbn [bind]; try discriminate. apply IH.
Qed.

Lemma ext_loop_stuck fuel df extlen :
  0 <= blocksize df <= 4 ->
  forall extofs encdat, blen encdat < extlen ->
  ext_loop fuel df extlen extofs encdat = Raise StructError \/
  ext_loop fuel df extlen extofs encdat = OutOfFuel.
Proof.
  intros Hb. induction fuel as [|f IH]; intros extofs encdat Hl;
    cbn [ext_loop]; destruct (Z.ltb_spec (blen encdat) extlen); try lia; auto.
  pose proof (readdata_short df extofs (blocksize df) (proj1 Hb)) as Hs.
  destruct (unpack_le 4 _) eqn:E; cbn [bind]; auto.
  - replace (from 4 (readdata df extofs (blocksize df))) with (@nil byte).
    + rewrite app_nil_r. apply IH. exact Hl.
    + symmetry. apply skipn_all2. unfold blen in Hs. simpl Z.to_nat. lia.
  - left. f_equal. eapply unpack_le_raise; eauto.
Qed.

Lemma ext_loop_short_block fuel df extlen extofs encdat :
  0 <= blocksize df < 4 -> blen encdat < extlen ->
  ext_loop (S fuel) df extlen extofs encdat = Raise StructError.
Proof.
  intros Hb Hl. cbn [ext_loop].
  destruct (Z.ltb_spec (blen encdat) extlen); [|lia].
  pose proof (readdata_short df extofs (blocksize df) (proj1 Hb)) as Hs.
  unfold unpack_le.
  replace (Nat.eqb _ 4) with false; [reflexivity|].
  symmetry. apply Nat.eqb_neq. unfold upto. rewrite length_firstn.
  unfold blen in Hs. lia.
Qed.

(** Fuel only bounds the loop: a read that has returned or raised does the
    same with more fuel. *)
Lemma ext_loop_more_fuel fuel df extlen k : forall extofs encdat,
  ext_loop fuel df extlen extofs encdat <> OutOfFuel ->
  ext_loop (fuel + k) df extlen extofs encdat =
  ext_loop fuel df extlen extofs encdat.
Proof.
  induction fuel as [|f IH]; intros extofs encdat.
  - cbn [ext_loop]. destruct (blen encdat <? extlen) eqn:E.
    + intros H. now contradiction H.
    + intros _. destruct (0 + k)%nat; cbn [ext_loop]; now rewrite E.
  - cbn [ext_loop Nat.add]. destruct (blen encdat <? extlen); [|reflexivity].
    destruct (unpack_le 4 _); cbn [bind]; try reflexivity. apply IH.
Qed.

Lemma readrec_more_fuel fuel k df idx :
  readrec koddecode inflate fuel df idx <> OutOfFuel ->
  readrec koddecode inflate (fuel + k) df idx =
  readrec koddecode inflate fuel df idx.
Proof.
  unfold readrec. destruct (idx =? 0); [reflexivity|].
  destruct (py_index (tadidx df) (idx - 1)) as [[[ofs ln] chk]| |];
    cbn [bind]; try reflexivity.
  unfold readrec_desc. destruct (ln =? 0xFFFFFFFF); [reflexivity|].
  unfold readrec_enc.
  destruct (is_empty _); [reflexivity|].
  destruct (Z.shiftr ln 24 =? 0); [|reflexivity].
  destruct (unpack_LL _) as [[extofs extlen]| |]; cbn [bind]; try reflexivity.
  intros H. rewrite ext_loop_more_fuel; [reflexivity|].
  intros E. rewrite E in H. now apply H.
Qed.


(** X1 (what holds of C6): in a 32-bit archive, when reading an extended
    record returns, the buffer before deobfuscation and decompression has
    exactly the total length of the prefix. *)
Theorem readrec_enc_extended_length fuel df ofs ln chk extofs extlen r :
  use64bit df = false ->
  Z.shiftr ln 24 = 0 ->
  unpack_LL (upto 8 (readdata df ofs (Z.land ln 0xFFFFFFF))) = Ret (extofs, extlen) ->
  readrec_enc fuel df (ofs, ln, chk) = Ret r ->
  blen r = extlen.
Proof.
  intros _ Hf Hp. unfold readrec_enc. rewrite Hf, Hp.
  destruct (readdata df ofs (Z.land ln 0xFFFFFFF)) as [|x l] eqn:Ed;
    [discriminate Hp|].
  cbn [is_empty Z.eqb bind].
  destruct (ext_loop _ _ _ _ _) as [e| |] eqn:L; cbn [bind]; try discriminate.
  intros E; inversion E; subst. apply ext_loop_length in L.
  apply blen_upto. split; [|exact L].
  unfold unpack_LL in Hp. destruct (Nat.eqb _ 8); [|discriminate].
  inversion Hp; subst. apply le_int_nonneg.
Qed.


(** *** The code at the inputs where it leaves the specification *)

(** C1 (the code at the failing input): slot 3 of [a32] has
    length_and_flags 0x01000002, whose low 24 bits are 2. [readrec] masks
    with 0xFFFFFFF, 28 bits, asks for 0x1000002 bytes at offset 32 and
    returns the five bytes left in the container, not two. *)
Theorem readrec_length_mask fuel :
  Datafile_init a32_dat a32_tad = Ret a32 /\
  nth_error (tadidx a32) 2 = Some (32, 0x01000002, 0) /\
  Z.land 0x01000002 0x00FFFFFF = 2 /\
  Z.land 0x01000002 0xFFFFFFF = 0x1000002 /\
  readdata a32 32 (Z.land 0x01000002 0xFFFFFFF) = hello /\
  readrec koddecode inflate fuel a32 3 = Ret (Some hello).
Proof. repeat split. Qed.

(** C2 (the code at the failing input): on the 64-bit archive [a64],
    [readrec] unpacks the first 8 bytes of the primary fragment as two
    32-bit words, so the total length is the high half of the 64-bit next
    pointer, 0, and the record comes back empty; [dump] unpacks the 12-byte
    prefix and gets "Hello". *)
Theorem readrec_64bit_prefix fuel :
  Datafile_init a64_dat a64_tad = Ret a64 /\
  use64bit a64 = true /\
  unpack_QL (upto 12 (readdata a64 32 17)) = Ret (0, 5) /\
  unpack_LL (upto 8 (readdata a64 32 17)) = Ret (0, 0) /\
  readrec koddecode inflate fuel a64 1 = Ret (Some []) /\
  dump_enc fuel a64 0 (32, 17, 0) [] =
    Ret (hello, [], [(32, 49, "item #0"%string)]).
Proof. destruct fuel; repeat split. Qed.

(** C6 (the code at the failing input): the extended record of the 64-bit
    archive [a64] stores the total length 5 in its prefix, the walk
    completes, and the buffer [readrec] has before deobfuscation and
    decompression has length 0. *)
Theorem readrec_enc_64bit_length fuel :
  use64bit a64 = true /\
  le_int (firstn 4 (skipn 8 (readdata a64 32 17))) = 5 /\
  readrec_enc fuel a64 (32, 17, 0) = Ret [] /\
  blen (@nil byte) = 0.
Proof. destruct fuel; repeat split. Qed.

(** C9 (the code at the failing input): [dump] on [a_nested] touches
    bytes 32..37 and 33..35; [enumunreferenced] then yields (0, 32) and
    (35, 5), and offset 35 is both touched and reported unreferenced. *)
Theorem dump_nested_ranges fuel :
  Datafile_init nested_dat nested_tad = Ret a_nested /\
  dump koddecode inflate fuel a_nested true true =
    Ret ([Some (hello, []); Some ([x65; x6c], [])],
         [(32, 37, "item #0"%string); (33, 35, "item #1"%string)],
         [(0, 32); (35, 5)]) /\
  32 <= 35 < 37 /\
  35 <= 35 < 35 + 5.
Proof. repeat split; lia. Qed.

End ReaderFacts.

Lemma a32_init : Datafile_init a32_dat a32_tad = Ret a32.
Proof. reflexivity. Qed.

(** The three cases of [readrec_index] on the archive [a32]. *)
Lemma readrec_index_witness :
  readrec kod_plain inflate_stored 0 a32 0 = Raise RecnumNotPositive /\
  readrec kod_plain inflate_stored 0 a32 5 = Raise IndexError /\
  readrec kod_plain inflate_stored 0 a32 2 = Ret None.
Proof.
  pose proof (readrec_index kod_plain inflate_stored 0 a32 0) as (H0 & _ & _).
  pose proof (readrec_index kod_plain inflate_stored 0 a32 5) as (_ & H4 & _).
  pose proof (readrec_index kod_plain inflate_stored 0 a32 2) as (_ & _ & H2).
  split; [|split].
  - apply H0. reflexivity.
  - apply H4. vm_compute. reflexivity.
  - apply (H2 ltac:(vm_compute; split; discriminate) 0 0). reflexivity.
Defined.

(** [readrec_negative_index] on the obfuscated archive [a32k] with the
    index-dependent test double: index -3 reads slot 1, "Hello", shifted
    by -3. *)
Lemma readrec_negative_index_witness :
  exists d,
    nth_error (tadidx a32k) 0 = Some d /\
    readrec kod_shift inflate_stored 0 a32k (-3) =
      readrec_desc kod_shift inflate_stored 0 a32k (-3) d /\
    readrec kod_shift inflate_stored 0 a32k (-3) <> Raise RecnumNotPositive /\
    readrec kod_shift inflate_stored 0 a32k (-3) <> Raise IndexError /\
    (forall encdat,
        snd (fst d) <> 0xFFFFFFFF ->
        readrec_enc 0 a32k d = Ret encdat ->
        Z.land (encoding a32k) 1 <> 0 ->
        readrec kod_shift inflate_stored 0 a32k (-3) =
          (c <- iscompressed (kod_shift (-3) encdat) ;;
           r <- (if c then decompress inflate_stored (kod_shift (-3) encdat)
                 else Ret (kod_shift (-3) encdat)) ;;
           Ret (Some r))).
Proof.
  exact (readrec_negative_index kod_shift inflate_stored 0 a32k (-3)
           ltac:(vm_compute; split; discriminate)).
Defined.

Lemma a_loop_init : Datafile_init loop_dat loop_tad = Ret a_loop.
Proof. reflexivity. Qed.

Lemma a_loop_ext_loop fuel : ext_loop fuel a_loop 16 48 loop_payload = OutOfFuel.
Proof.
  induction fuel as [|f IH]; [reflexivity|].
  cbn [ext_loop].
  change (blen loop_payload <? 16) with true. cbv iota.
  change (readdata a_loop 48 (blocksize a_loop)) with (le_bytes 4 48).
  change (unpack_le 4 (upto 4 (le_bytes 4 48))) with (@Ret Z 48).
  cbn [bind].
  change (loop_payload ++ from 4 (le_bytes 4 48)) with loop_payload.
  exact IH.
Qed.



Lemma a_bs2_init :
  Datafile_init (dat_header v0102 0 2 ++ skipn 19 loop_dat) loop_tad = Ret a_bs2.
Proof. reflexivity. Qed.

Lemma a32k_init :
  Datafile_init (dat_header v0102 1 0x40 ++ zeros 13 ++ hello) a32_tad = Ret a32k.
Proof. reflexivity. Qed.

Lemma a_ext_init : Datafile_init ext_dat ext_tad = Ret a_ext.
Proof. reflexivity. Qed.

(** [readrec_enc_extended_length] on [a_ext]: the walk completes with one
    block and the 68 bytes gathered are cut to the total length 20. *)
Lemma readrec_enc_extended_length_witness :
  readrec_enc 1 a_ext (32, 16, 0) = Ret (repeat x41 8 ++ repeat x42 12) /\
  blen (repeat x41 8 ++ repeat x42 12) = 20.
Proof.
  split; [reflexivity|].
  apply (readrec_enc_extended_length 1 a_ext 32 16 0 64 20); reflexivity.
Defined.

Lemma a_empty_init : Datafile_init empty_dat empty_tad = Ret a_empty.
Proof. reflexivity. Qed.


(** C8 (the code at the failing input): slot 4 of [a32] is not deleted and
    has length_and_flags 0x01000000, whose length field, the low 24 bits,
    is 0. [readrec] masks with 0xFFFFFFF, 28 bits, asks for 0x1000000
    bytes at offset 32 and returns "Hello", not the empty buffer. *)
Theorem readrec_zero_length_mask (koddecode : Z -> bytes -> bytes)
    (inflate : bytes -> option bytes) (fuel : nat) :
  Datafile_init a32_dat a32_tad = Ret a32 /\
  nth_error (tadidx a32) 3 = Some (32, 0x01000000, 0) /\
  Z.land 0x01000000 0x00FFFFFF = 0 /\
  Z.land 0x01000000 0xFFFFFFF = 0x1000000 /\
  readdata a32 32 (Z.land 0x01000000 0xFFFFFFF) = hello /\
  readrec koddecode inflate fuel a32 4 = Ret (Some hello).
Proof. repeat split. Qed.

(** ** enumunreferenced *)

Lemma In_insert_range x r l : In x (insert_range r l) <-> x = r \/ In x l.
Proof.
  induction l as [|y l IH]; simpl.
  - intuition congruence.
  - destruct (range_leb r y); simpl; [intuition congruence|].
    rewrite IH. intuition congruence.
Qed.

Lemma In_sorted x l : In x (sorted l) <-> In x l.
Proof.
  induction l as [|y l IH]; simpl; [tauto|].
  rewrite In_insert_range, IH. intuition congruence.
Qed.

Lemma range_leb_true a b : range_leb a b = true -> range_le a b.
Proof.
  destruct a as [[s1 e1] d1], b as [[s2 e2] d2].
  unfold range_leb, range_le, r_start, r_end; cbn [fst snd].
  rewrite !orb_true_iff, !andb_true_iff, !orb_true_iff, !andb_true_iff.
  rewrite !Z.ltb_lt, !Z.eqb_eq. lia.
Qed.

Lemma range_leb_false a b : range_leb a b = false -> range_le b a.
Proof.
  destruct a as [[s1 e1] d1], b as [[s2 e2] d2].
  unfold range_leb, range_le, r_start, r_end; cbn [fst snd].
  rewrite !orb_false_iff, !andb_false_iff, !orb_false_iff, !andb_false_iff.
  rewrite !Z.ltb_ge, !Z.eqb_neq. lia.
Qed.

Lemma range_le_trans a b c : range_le a b -> range_le b c -> range_le a c.
Proof. unfold range_le. lia. Qed.

Lemma insert_range_sorted r l :
  StronglySorted range_le l -> StronglySorted range_le (insert_range r l).
Proof.
  induction 1 as [|x l S IH F]; simpl.
  - repeat constructor.
  - destruct (range_leb r x) eqn:E.
    + apply range_leb_true in E. constructor; [constructor; assumption|].
      constructor; [exact E|].
      eapply Forall_impl; [|exact F]. intros y. now apply range_le_trans.
    + apply range_leb_false in E. constructor; [exact IH|].
      apply Forall_forall. intros y Hy. apply In_insert_range in Hy.
      destruct Hy as [->|Hy]; [exact E|].
      rewrite Forall_forall in F. auto.
Qed.

Lemma sorted_sorted l : StronglySorted range_le (sorted l).
Proof.
  induction l; simpl; [constructor | now apply insert_range_sorted].
Qed.

Lemma enum_loop_cover filesize rs : forall o x,
  o <= x < filesize ->
  (exists r, In r rs /\ in_range x r) \/
  (exists y, In y (enum_loop o rs filesize) /\ in_yield x y).
Proof.
  induction rs as [|[[s e] d] rs IH]; intros o x Hx; cbn [enum_loop].
  - right. destruct (Z.ltb_spec o filesize); [|lia].
    exists (o, filesize - o). split; [now left|].
    unfold in_yield; cbn [fst snd]. lia.
  - destruct (Z.lt_ge_cases x s) as [Hs|Hs].
    + right. destruct (Z.ltb_spec o s); [|lia].
      exists (o, s - o). split; [now left|].
      unfold in_yield; cbn [fst snd]. lia.
    + destruct (Z.lt_ge_cases x e) as [He|He].
      * left. exists (s, e, d). split; [now left|].
        unfold in_range, r_start, r_end; cbn [fst snd]. lia.
      * destruct (IH e x ltac:(lia)) as [(r & Hr & Hin)|(y & Hy & Hin)].
        -- left. exists r. split; [now right | exact Hin].
        -- right. exists y. split; [|exact Hin].
           apply in_or_app. now right.
Qed.

Lemma enum_loop_chain filesize rs :
  StronglySorted range_le rs ->
  (forall r, In r rs -> r_start r <= r_end r) ->
  forall m o, m <= o -> (forall r, In r rs -> m <= r_start r) ->
  chain m (enum_loop o rs filesize).
Proof.
  induction 1 as [|[[s e] d] rs S IH F]; intros Hse m o Hm Hlow;
    cbn [enum_loop].
  - destruct (Z.ltb_spec o filesize); cbn [chain]; [lia | exact I].
  - rewrite Forall_forall in F.
    pose proof (Hse (s, e, d) (or_introl eq_refl)) as Hse0.
    pose proof (Hlow (s, e, d) (or_introl eq_refl)) as Hlow0.
    unfold r_start, r_end in Hse0, Hlow0; cbn [fst snd] in Hse0, Hlow0.
    assert (Hs : forall r, In r rs -> s <= r_start r).
    { intros r Hr. apply F in Hr. destruct Hr as [Hr _]. exact Hr. }
    destruct (Z.ltb_spec o s); cbn [app chain].
    + split; [lia|]. split; [lia|].
      replace (o + (s - o)) with s by lia.
      apply IH; [intros r Hr; apply Hse; now right | lia | exact Hs].
    + apply IH; [intros r Hr; apply Hse; now right | lia |].
      intros r Hr. apply Hs in Hr. lia.
Qed.

Lemma chain_lower ys : forall m y, chain m ys -> In y ys -> m <= fst y.
Proof.
  induction ys as [|[a l] ys IH]; intros m y; cbn [chain]; [easy|].
  intros (Ha & Hl & C) [<-|Hy]; cbn [fst]; [lia|].
  specialize (IH _ _ C Hy). lia.
Qed.

Lemma chain_at_most_one ys : forall m, chain m ys ->
  forall i j y1 y2 x,
    nth_error ys i = Some y1 -> nth_error ys j = Some y2 ->
    in_yield x y1 -> in_yield x y2 -> i = j.
Proof.
  induction ys as [|[a l] ys IH]; intros m C i j y1 y2 x E1 E2 H1 H2.
  - destruct i; discriminate.
  - cbn [chain] in C. destruct C as (Ha & Hl & C).
    unfold in_yield in *.
    destruct i as [|i], j as [|j]; cbn [nth_error] in E1, E2.
    + reflexivity.
    + inversion E1; subst. apply nth_error_In in E2.
      pose proof (chain_lower _ _ _ C E2). cbn [fst snd] in H1. lia.
    + inversion E2; subst. apply nth_error_In in E1.
      pose proof (chain_lower _ _ _ C E1). cbn [fst snd] in H2. lia.
    + f_equal. eapply IH; eauto.
Qed.

(** X2 (what holds of C9) for every list of ranges with
    [0 <= start <= end]: every offset of [0, filesize) lies in a touched
    range or in a yielded range, and no offset lies in two yielded ranges
    (they are non-empty and in increasing order). *)
Theorem enumunreferenced_cover ranges filesize :
  (forall r, In r ranges -> 0 <= r_start r <= r_end r) ->
  (forall x, 0 <= x < filesize ->
     (exists r, In r ranges /\ in_range x r) \/
     (exists y, In y (enumunreferenced ranges filesize) /\ in_yield x y)) /\
  chain 0 (enumunreferenced ranges filesize) /\
  (forall i j y1 y2 x,
     nth_error (enumunreferenced ranges filesize) i = Some y1 ->
     nth_error (enumunreferenced ranges filesize) j = Some y2 ->
     in_yield x y1 -> in_yield x y2 -> i = j).
Proof.
  intros H. unfold enumunreferenced.
  assert (C : chain 0 (enum_loop 0 (sorted ranges) filesize)).
  { apply enum_loop_chain; [apply sorted_sorted | | lia |];
      intros r Hr; apply (proj1 (In_sorted _ _)) in Hr; apply H in Hr; lia. }
  split; [|split].
  - intros x Hx.
    destruct (enum_loop_cover filesize (sorted ranges) 0 x Hx)
      as [(r & Hr & Hin)|Hy]; [left|right; exact Hy].
    exists r. split; [now apply (proj1 (In_sorted _ _)) | exact Hin].
  - exact C.
  - eapply chain_at_most_one; eauto.
Qed.

Lemma enum_loop_apart filesize rs :
  StronglySorted range_le rs ->
  (forall r, In r rs -> r_start r <= r_end r) ->
  (forall r1 r2, In r1 rs -> In r2 rs ->
                 r_start r1 < r_start r2 -> r_end r1 <= r_end r2) ->
  forall o, (forall r, In r rs -> o <= r_end r) ->
  forall y, In y (enum_loop o rs filesize) ->
    o <= fst y /\
    forall r x, In r rs -> in_yield x y -> in_range x r -> False.
Proof.
  induction 1 as [|[[s e] d] rs S IH F]; intros Hse Hmono o Ho y Hy;
    cbn [enum_loop] in Hy.
  - destruct (Z.ltb_spec o filesize); [|contradiction].
    destruct Hy as [<-|[]]. cbn [fst]. split; [lia|]. intros r x [].
  - rewrite Forall_forall in F.
    pose proof (Hse (s, e, d) (or_introl eq_refl)) as Hse0.
    pose proof (Ho (s, e, d) (or_introl eq_refl)) as Ho0.
    unfold r_start, r_end in Hse0, Ho0; cbn [fst snd] in Hse0, Ho0.
    assert (Hs : forall r, In r rs -> s <= r_start r /\ e <= r_end r).
    { intros r Hr. pose proof (F r Hr) as [F1 F2].
      change (r_start (s, e, d)) with s in F1, F2.
      change (r_end (s, e, d)) with e in F2.
      split; [exact F1|].
      destruct (Z.eq_dec s (r_start r)) as [Eq|Ne]; [auto|].
      apply (Hmono (s, e, d) r); [now left | now right |].
      change (r_start (s, e, d)) with s. lia. }
    apply in_app_or in Hy. destruct Hy as [Hy|Hy].
    + destruct (Z.ltb_spec o s); [|contradiction].
      destruct Hy as [<-|[]]. cbn [fst]. split; [lia|].
      intros r x [<-|Hr]; unfold in_yield, in_range; cbn [fst snd].
      * unfold r_start, r_end; cbn [fst snd]. lia.
      * apply Hs in Hr. lia.
    + destruct (IH ltac:(intros r Hr; apply Hse; now right)
                   ltac:(intros r1 r2 H1 H2; apply Hmono; now right)
                   e ltac:(intros r Hr; apply Hs in Hr; lia) y Hy)
        as [Hlo Hap].
      split; [lia|].
      intros r x [<-|Hr]; [|now apply Hap].
      unfold in_yield, in_range, r_start, r_end; cbn [fst snd]. lia.
Qed.

(** X3 (what holds of C9) when no touched range that starts later ends
    earlier (as with ranges that are pairwise disjoint): no yielded range
    overlaps a touched range. *)
Theorem enumunreferenced_apart ranges filesize :
  (forall r, In r ranges -> 0 <= r_start r <= r_end r) ->
  (forall r1 r2, In r1 ranges -> In r2 ranges ->
                 r_start r1 < r_start r2 -> r_end r1 <= r_end r2) ->
  forall y r x,
    In y (enumunreferenced ranges filesize) -> In r ranges ->
    in_yield x y -> in_range x r -> False.
Proof.
  intros H Hm y r x Hy Hr. unfold enumunreferenced in Hy.
  eapply (enum_loop_apart filesize (sorted ranges)); try exact Hy.
  - apply sorted_sorted.
  - intros r0 Hr0. apply (proj1 (In_sorted _ _)) in Hr0. apply H in Hr0. lia.
  - intros r1 r2 H1 H2. apply (proj1 (In_sorted _ _)) in H1.
    apply (proj1 (In_sorted _ _)) in H2. now apply Hm.
  - intros r0 Hr0. apply (proj1 (In_sorted _ _)) in Hr0. apply H in Hr0. lia.
  - now apply (proj2 (In_sorted _ _)).
Qed.

(** [enumunreferenced_cover] on the one range 32..37 of a container of 40
    bytes: the yielded pairs are (0, 32) and (37, 3). *)
Lemma enumunreferenced_cover_witness :
  enumunreferenced [(32, 37, "item #0"%string)] 40 = [(0, 32); (37, 3)] /\
  chain 0 (enumunreferenced [(32, 37, "item #0"%string)] 40).
Proof.
  split; [reflexivity|].
  refine (proj1 (proj2 (enumunreferenced_cover [(32, 37, "item #0"%string)] 40 _))).
  intros r [<-|[]]. vm_compute. split; discriminate.
Defined.

(** [enumunreferenced_apart] on two ranges that do not overlap, given in
    reverse order: offset 50 is in the yielded pair (37, 27), so it is
    in no touched range. *)
Lemma enumunreferenced_apart_witness :
  Forall (fun r => ~ in_range 50 r)
    [(64, 128, "item #0 ext"%string); (32, 37, "item #0"%string)].
Proof.
  apply Forall_forall. intros r Hr Hin.
  refine (enumunreferenced_apart
            [(64, 128, "item #0 ext"%string); (32, 37, "item #0"%string)] 128
            _ _ (37, 27) r 50 _ Hr _ Hin).
  - intros r0 [<-|[<-|[]]]; vm_compute; split; discriminate.
  - intros r1 r2 [<-|[<-|[]]] [<-|[<-|[]]]; vm_compute; intros; discriminate.
  - vm_compute. right. left. reflexivity.
  - vm_compute. split; [discriminate | reflexivity].
Defined.

(** ** Numbers and bytes *)

Lemma to_N_bz n : 0 <= n < 256 -> Z.of_N (Byte.to_N (bz n)) = n.
Proof.
  intros H. unfold bz.
  destruct (Byte.of_N (Z.to_N n)) as [b|] eqn:E.
  - apply Byte.to_of_N in E. rewrite E. lia.
  - apply Byte.of_N_None_iff in E. lia.
Qed.

Lemma length_le_bytes w : forall n, length (le_bytes w n) = w.
Proof. induction w as [|w IH]; intros n; simpl; [reflexivity | now rewrite IH]. Qed.

Lemma le_int_le_bytes w : forall n, fits w n -> le_int (le_bytes w n) = n.
Proof.
  unfold fits. induction w as [|w IH]; intros n H.
  - simpl in *. lia.
  - cbn [le_bytes le_int].
    rewrite Nat2Z.inj_succ, Z.pow_succ_r in H by lia.
    rewrite to_N_bz by (apply Z.mod_pos_bound; lia).
    rewrite IH.
    + pose proof (Z.div_mod n 256). lia.
    + split; [apply Z.div_pos; lia | apply Z.div_lt_upper_bound; lia].
Qed.

Lemma le_int_fits b : fits (length b) (le_int b).
Proof.
  unfold fits. induction b as [|x r IH]; cbn [le_int length].
  - simpl. lia.
  - rewrite Nat2Z.inj_succ, Z.pow_succ_r by lia.
    pose proof (Byte.to_N_bounded x). lia.
Qed.

Lemma fits_mono w w' n : (w <= w')%nat -> fits w n -> fits w' n.
Proof.
  unfold fits. intros Hw [H0 H1]. split; [exact H0|].
  eapply Z.lt_le_trans; [exact H1|]. apply Z.pow_le_mono_r; lia.
Qed.

Lemma le_int_firstn_fits k l : fits k (le_int (firstn k l)).
Proof.
  eapply fits_mono; [|apply le_int_fits]. apply firstn_le_length.
Qed.

Lemma firstn_le_bytes w n r : firstn w (le_bytes w n ++ r) = le_bytes w n.
Proof.
  rewrite <- (length_le_bytes w n) at 1.
  rewrite firstn_app, Nat.sub_diag, firstn_all. simpl. apply app_nil_r.
Qed.

Lemma skipn_le_bytes w n r : skipn w (le_bytes w n ++ r) = r.
Proof.
  rewrite <- (length_le_bytes w n) at 1.
  rewrite skipn_app, Nat.sub_diag, skipn_all. reflexivity.
Qed.

(** ** readtad *)

Lemma length_pack_entry use64 d : length (pack_entry use64 d) = tad_width use64.
Proof.
  destruct d as [[ofs ln] chk]. unfold pack_entry, tad_width.
  rewrite !length_app, !length_le_bytes. destruct use64; reflexivity.
Qed.

Lemma length_concat_pack use64 ds :
  length (concat (map (pack_entry use64) ds)) = (tad_width use64 * length ds)%nat.
Proof.
  induction ds as [|d ds IH]; simpl; [lia|].
  rewrite length_app, IH, length_pack_entry. lia.
Qed.

Lemma tad_entry_head use64 d rest :
  desc_fits use64 d -> tad_entry use64 (pack_entry use64 d ++ rest) 0 = d.
Proof.
  destruct d as [[ofs ln] chk]. intros (Ho & Hl & Hc).
  unfold tad_entry, pack_entry. rewrite !Nat.mul_0_r, !skipn_O.
  rewrite <- !app_assoc.
  destruct use64.
  - change 12%nat with (4 + 8)%nat. rewrite <- skipn_skipn.
    rewrite !skipn_le_bytes, !firstn_le_bytes.
    rewrite !le_int_le_bytes by assumption. reflexivity.
  - change 8%nat with (4 + 4)%nat. rewrite <- skipn_skipn.
    rewrite !skipn_le_bytes, !firstn_le_bytes.
    rewrite !le_int_le_bytes by assumption. reflexivity.
Qed.

Lemma tad_entry_tail use64 d rest i :
  tad_entry use64 (pack_entry use64 d ++ rest) (S i) = tad_entry use64 rest i.
Proof.
  pose proof (length_pack_entry use64 d) as L.
  assert (E : skipn (tad_width use64 * S i) (pack_entry use64 d ++ rest)
              = skipn (tad_width use64 * i) rest).
  { rewrite skipn_app, L.
    replace (tad_width use64 * S i - tad_width use64)%nat
      with (tad_width use64 * i)%nat by lia.
    rewrite skipn_all2 by lia. reflexivity. }
  unfold tad_entry.
  destruct use64;
    [ change (tad_width true) with 16%nat in E
    | change (tad_width false) with 12%nat in E ];
    rewrite E; reflexivity.
Qed.

Lemma map_tad_entry_pack use64 ds : forall rest,
  Forall (desc_fits use64) ds ->
  map (tad_entry use64 (concat (map (pack_entry use64) ds) ++ rest))
      (seq 0 (length ds)) = ds.
Proof.
  induction ds as [|d ds IH]; intros rest F; [reflexivity|].
  inversion F as [|? ? Hd Hds]; subst.
  cbn [length seq map concat]. rewrite <- app_assoc. f_equal.
  - now apply tad_entry_head.
  - rewrite <- seq_shift, map_map.
    erewrite map_ext; [apply IH; exact Hds|].
    intros i. apply tad_entry_tail.
Qed.

Lemma readtad_body use64 nd fd body :
  fits 4 nd -> fits 4 fd ->
  readtad use64 (le_bytes 4 nd ++ le_bytes 4 fd ++ body) =
  Ret (nd, fd,
       map (tad_entry use64 body) (seq 0 (length body / tad_width use64))).
Proof.
  intros Hn Hf. unfold readtad, upto, from.
  change (Z.to_nat 8) with (4 + 4)%nat.
  assert (E1 : firstn (4 + 4) (le_bytes 4 nd ++ le_bytes 4 fd ++ body)
               = le_bytes 4 nd ++ le_bytes 4 fd).
  { rewrite app_assoc.
    rewrite <- (length_le_bytes 4 nd) at 1. rewrite <- (length_le_bytes 4 fd) at 2.
    rewrite <- length_app, firstn_app, Nat.sub_diag, firstn_all.
    cbn [firstn]. apply app_nil_r. }
  assert (E2 : skipn (4 + 4) (le_bytes 4 nd ++ le_bytes 4 fd ++ body) = body).
  { rewrite <- skipn_skipn, !skipn_le_bytes. reflexivity. }
  rewrite E1, E2, length_app, !length_le_bytes.
  change (Nat.eqb (4 + 4) 8) with true. cbv iota.
  rewrite firstn_le_bytes, skipn_le_bytes.
  rewrite !le_int_le_bytes by assumption.
  destruct use64; reflexivity.
Qed.

(** X4: [readtad] inverts the index format and tolerates a trailing partial
    descriptor. For header words and descriptors that fit their fields, the
    packed index followed by fewer bytes than one descriptor reads back as
    exactly those header words and descriptors, in order. *)
Theorem readtad_pack use64 nd fd ds junk :
  fits 4 nd -> fits 4 fd -> Forall (desc_fits use64) ds ->
  (length junk < tad_width use64)%nat ->
  readtad use64 (pack_tad use64 nd fd ds ++ junk) = Ret (nd, fd, ds).
Proof.
  intros Hn Hf Hds Hj. unfold pack_tad. rewrite <- !app_assoc.
  rewrite readtad_body by assumption.
  rewrite length_app, length_concat_pack.
  replace ((tad_width use64 * length ds + length junk) / tad_width use64)%nat
    with (length ds).
  - now rewrite map_tad_entry_pack.
  - symmetry. rewrite Nat.mul_comm, Nat.div_add_l by (destruct use64; discriminate).
    rewrite Nat.div_small by exact Hj. lia.
Qed.

(** [readtad_pack] on one descriptor followed by two stray bytes. *)
Lemma readtad_pack_witness :
  readtad false (pack_tad false 0 1 [(32, 0x80000005, 7)] ++ [x00; x01])
  = Ret (0, 1, [(32, 0x80000005, 7)]).
Proof.
  apply readtad_pack.
  - vm_compute. split; [discriminate | reflexivity].
  - vm_compute. split; [discriminate | reflexivity].
  - repeat constructor; discriminate.
  - simpl. lia.
Defined.

(** ** Construction: what a constructed archive satisfies *)

Lemma length_upto_eq n d :
  0 <= n -> Nat.eqb (length (upto n d)) (Z.to_nat n) = true ->
  (Z.to_nat n <= length d)%nat.
Proof.
  intros _ H. apply Nat.eqb_eq in H. unfold upto in H.
  rewrite length_firstn in H. lia.
Qed.

Lemma tad_entry_fits use64 body i : desc_fits use64 (tad_entry use64 body i).
Proof.
  unfold tad_entry, desc_fits.
  destruct use64; repeat split; apply le_int_firstn_fits.
Qed.

(** X5: what holds of every archive that [Datafile_init] constructs. The
    container has the 19-byte header with the magic and the index its
    8-byte header; the archive keeps the container and its size; the
    version is bytes 10..15, is not 01.11, and selects 64-bit offsets
    exactly when it is 01.03; every header field and every descriptor field
    is an unsigned number of its width; and the number of descriptors is
    the index length less 8, divided by the descriptor width, rounded
    down. *)
Theorem Datafile_init_invariants d t df :
  Datafile_init d t = Ret df ->
  (19 <= length d)%nat /\ (8 <= length t)%nat /\
  firstn 8 d = magic_CroFile /\
  dat df = d /\ datsize df = blen d /\
  version df = firstn 5 (skipn 10 d) /\ version df <> v0111 /\
  use64bit df = bytes_eqb (version df) v0103 /\
  fits 2 (hdrunk df) /\ fits 2 (encoding df) /\ fits 2 (blocksize df) /\
  fits 4 (nrdeleted df) /\ fits 4 (firstdeleted df) /\
  length (tadidx df) = ((length t - 8) / tad_width (use64bit df))%nat /\
  Forall (desc_fits (use64bit df)) (tadidx df).
Proof.
  unfold Datafile_init, readdathdr.
  destruct (Nat.eqb (length (upto 19 d)) 19) eqn:E19; [|discriminate].
  apply (length_upto_eq 19 d ltac:(lia)) in E19.
  change (Z.to_nat 19) with 19%nat in E19.
  destruct (bytes_eqb (firstn 8 (upto 19 d)) magic_CroFile) eqn:Em;
    cbn [negb]; [|discriminate].
  apply bytes_eqb_eq in Em. unfold upto in Em. rewrite firstn_firstn in Em.
  change (Nat.min 8 (Z.to_nat 19)) with 8%nat in Em.
  rewrite (header_version d E19).
  destruct (bytes_eqb (firstn 5 (skipn 10 d)) v0111) eqn:Ev; [discriminate|].
  apply bytes_eqb_neq in Ev. cbn [bind]. unfold readtad.
  destruct (Nat.eqb (length (upto 8 t)) 8) eqn:E8; [|discriminate].
  apply (length_upto_eq 8 t ltac:(lia)) in E8.
  change (Z.to_nat 8) with 8%nat in E8.
  cbn [bind]. intros H. injection H as <-.
  cbn [dat datsize version use64bit hdrunk encoding blocksize nrdeleted
       firstdeleted tadidx].
  split; [exact E19|]. split; [exact E8|]. split; [exact Em|].
  split; [reflexivity|]. split; [reflexivity|]. split; [reflexivity|].
  split; [exact Ev|]. split; [reflexivity|].
  split; [exact (le_int_firstn_fits 2 (skipn 8 (upto 19 d)))|].
  split; [exact (le_int_firstn_fits 2 (skipn 15 (upto 19 d)))|].
  split; [exact (le_int_firstn_fits 2 (skipn 17 (upto 19 d)))|].
  split; [exact (le_int_firstn_fits 4 (upto 8 t))|].
  split; [|split].
  - change (fits 4 (le_int (skipn 4 (upto 8 t)))).
    eapply fits_mono; [|apply le_int_fits].
    rewrite length_skipn. unfold upto. rewrite length_firstn.
    change (Z.to_nat 8) with 8%nat. lia.
  - rewrite length_map, length_seq. unfold from. rewrite length_skipn.
    change (Z.to_nat 8) with 8%nat. unfold tad_width.
    destruct (bytes_eqb (firstn 5 (skipn 10 d)) v0103); reflexivity.
  - apply Forall_forall. intros x Hx. apply in_map_iff in Hx.
    destruct Hx as (i & <- & _). apply tad_entry_fits.
Qed.

(** [Datafile_init_invariants] on the archive [a32]. *)
Lemma Datafile_init_invariants_witness :
  length (tadidx a32) = ((length a32_tad - 8) / tad_width (use64bit a32))%nat /\
  Forall (desc_fits (use64bit a32)) (tadidx a32).
Proof.
  pose proof (Datafile_init_invariants a32_dat a32_tad a32 eq_refl) as H.
  split; apply H.
Defined.

(** X6: the errors of construction, in the order the code tests: a
    container shorter than the 19-byte header raises struct.error; with 19
    bytes, a wrong magic raises "not a Crofile", whatever the version and
    the index; with the magic and a version other than 01.11, an index
    shorter than its 8-byte header raises struct.error. *)
Theorem Datafile_init_errors d t :
  ((length d < 19)%nat -> Datafile_init d t = Raise StructError) /\
  ((19 <= length d)%nat -> firstn 8 d <> magic_CroFile ->
   Datafile_init d t = Raise NotACrofile) /\
  ((19 <= length d)%nat -> firstn 8 d = magic_CroFile ->
   firstn 5 (skipn 10 d) <> v0111 -> (length t < 8)%nat ->
   Datafile_init d t = Raise StructError).
Proof.
  unfold Datafile_init, readdathdr.
  assert (L : length (upto 19 d) = Nat.min 19 (length d)).
  { unfold upto. now rewrite length_firstn. }
  assert (M : firstn 8 (upto 19 d) = firstn 8 d).
  { unfold upto. now rewrite firstn_firstn. }
  split; [|split].
  - intros H. rewrite L.
    replace (Nat.eqb (Nat.min 19 (length d)) 19) with false; [reflexivity|].
    symmetry. apply Nat.eqb_neq. lia.
  - intros H Hm. rewrite L, Nat.min_l, Nat.eqb_refl, M by exact H.
    apply bytes_eqb_neq in Hm. rewrite Hm. reflexivity.
  - intros H Hm Hv Ht. rewrite L, Nat.min_l, Nat.eqb_refl, M by exact H.
    apply bytes_eqb_eq in Hm. rewrite Hm. cbn [negb].
    rewrite (header_version d H). apply bytes_eqb_neq in Hv. rewrite Hv.
    cbn [bind]. unfold readtad, upto. rewrite length_firstn.
    replace (Nat.eqb (Nat.min (Z.to_nat 8) (length t)) 8) with false;
      [reflexivity|].
    symmetry. apply Nat.eqb_neq. change (Z.to_nat 8) with 8%nat. lia.
Qed.

(** The three cases of [Datafile_init_errors]: a container of 5 bytes, the
    container of [a32] with its first byte changed and the index cut short,
    and the container of [a32] with an index of 7 bytes. *)
Lemma Datafile_init_errors_witness :
  Datafile_init hello a32_tad = Raise StructError /\
  Datafile_init (x58 :: skipn 1 a32_dat) (zeros 3) = Raise NotACrofile /\
  Datafile_init a32_dat (zeros 7) = Raise StructError.
Proof.
  split; [|split].
  - apply (proj1 (Datafile_init_errors hello a32_tad)). simpl. lia.
  - apply (proj1 (proj2 (Datafile_init_errors (x58 :: skipn 1 a32_dat) (zeros 3)))).
    + simpl. lia.
    + discriminate.
  - apply (proj2 (proj2 (Datafile_init_errors a32_dat (zeros 7)))).
    + simpl. lia.
    + reflexivity.
    + discriminate.
    + simpl. lia.
Defined.

(** ** readrec: inline records, errors, termination *)

Lemma py_index_before_start {A} (l : list A) i :
  i < - Z.of_nat (length l) -> py_index l i = Raise IndexError.
Proof.
  intros H. unfold py_index.
  destruct (Z.ltb_spec i 0); [|lia].
  destruct (Z.leb_spec 0 (i + Z.of_nat (length l))); [lia|]. reflexivity.
Qed.

Lemma blen_readdata df ofs size :
  0 <= ofs -> 0 <= size ->
  blen (readdata df ofs size) = Z.min size (Z.max 0 (blen (dat df) - ofs)).
Proof.
  intros Ho Hs. unfold readdata. destruct (Z.ltb_spec size 0); [lia|].
  unfold blen, upto, from. rewrite length_firstn, length_skipn. lia.
Qed.

Lemma readrec_enc_inline fuel df ofs ln chk :
  Z.shiftr ln 24 <> 0 ->
  readrec_enc fuel df (ofs, ln, chk) = Ret (readdata df ofs (Z.land ln 0xFFFFFFF)).
Proof.
  intros H. unfold readrec_enc.
  destruct (is_empty _); [reflexivity|].
  destruct (Z.eqb_spec (Z.shiftr ln 24) 0); [contradiction | reflexivity].
Qed.

Lemma ext_loop_enough_fuel df extlen extofs encdat :
  good_walk df extlen extofs encdat ->
  forall fuel, extlen - blen encdat <= Z.of_nat fuel ->
  exists r, ext_loop fuel df extlen extofs encdat = Ret r /\ extlen <= blen r.
Proof.
  induction 1 as [extofs encdat Hd | extofs encdat Hl Hb _ IH]; intros fuel Hf.
  - exists encdat. split; [|exact Hd].
    destruct fuel; cbn [ext_loop];
      destruct (Z.ltb_spec (blen encdat) extlen); (reflexivity || lia).
  - destruct fuel as [|f]; [lia|]. cbn [ext_loop].
    destruct (Z.ltb_spec (blen encdat) extlen); [|lia].
    unfold unpack_le.
    replace (Nat.eqb (length (upto 4 (readdata df extofs (blocksize df)))) 4)
      with true.
    + cbn [bind]. apply IH. rewrite blen_app, blen_from by lia. lia.
    + symmetry. apply Nat.eqb_eq. unfold upto. rewrite length_firstn.
      unfold blen in Hb. change (Z.to_nat 4) with 4%nat. lia.
Qed.

Section ReaderMore.

Variable koddecode : Z -> bytes -> bytes.
Variable inflate : bytes -> option bytes.


(** X8: which indices [readrec] refuses. It raises "recnum must be a
    positive number" exactly for index 0, and IndexError exactly for a
    non-zero index above [nrofrecords] or below [-(nrofrecords - 1)]: the
    indices it reads are 1 .. nrofrecords and -(nrofrecords - 1) .. -1. *)
Theorem readrec_refused fuel df idx :
  (readrec koddecode inflate fuel df idx = Raise RecnumNotPositive <-> idx = 0) /\
  (readrec koddecode inflate fuel df idx = Raise IndexError <->
   idx <> 0 /\ (nrofrecords df < idx \/ idx < - (nrofrecords df - 1))).
Proof.
  unfold nrofrecords.
  assert (In_range : idx <> 0 ->
            - (Z.of_nat (length (tadidx df)) - 1) <= idx <= Z.of_nat (length (tadidx df)) ->
            exists d, readrec koddecode inflate fuel df idx =
                      readrec_desc koddecode inflate fuel df idx d).
  { intros Hn Hr. unfold readrec. destruct (Z.eqb_spec idx 0); [contradiction|].
    destruct (Z.lt_ge_cases idx 0).
    - destruct (py_index_negative (tadidx df) (idx - 1)) as (d & _ & ->); [lia|].
      exists d. reflexivity.
    - destruct (py_index_nonneg (tadidx df) (idx - 1)) as (d & _ & ->); [lia|].
      exists d. reflexivity. }
  assert (Out : idx <> 0 ->
            Z.of_nat (length (tadidx df)) < idx \/
            idx < - (Z.of_nat (length (tadidx df)) - 1) ->
            readrec koddecode inflate fuel df idx = Raise IndexError).
  { intros Hn Hr. unfold readrec. destruct (Z.eqb_spec idx 0); [contradiction|].
    destruct Hr; [rewrite py_index_past_end by lia
                 | rewrite py_index_before_start by lia]; reflexivity. }
  split; split.
  - intros H. destruct (Z.eq_dec idx 0) as [|Hn]; [assumption|]. exfalso.
    destruct (Z_le_gt_dec idx (Z.of_nat (length (tadidx df)))) as [Hle|Hgt].
    + destruct (Z_le_gt_dec (- (Z.of_nat (length (tadidx df)) - 1)) idx) as [Hge|Hlt].
      * destruct (In_range Hn (conj Hge Hle)) as (d & E). rewrite E in H.
        apply readrec_desc_raise in H. destruct H; discriminate.
      * rewrite Out in H by (auto; lia). discriminate.
    + rewrite Out in H by (auto; lia). discriminate.
  - intros ->. reflexivity.
  - intros H. destruct (Z.eq_dec idx 0) as [->|Hn]; [discriminate H|].
    split; [exact Hn|].
    destruct (Z_le_gt_dec idx (Z.of_nat (length (tadidx df)))) as [Hle|Hgt];
      [|left; lia].
    destruct (Z_le_gt_dec (- (Z.of_nat (length (tadidx df)) - 1)) idx) as [Hge|Hlt];
      [|right; lia].
    exfalso. destruct (In_range Hn (conj Hge Hle)) as (d & E). rewrite E in H.
    apply readrec_desc_raise in H. destruct H; discriminate.
  - intros [Hn Hr]. now apply Out.
Qed.

End ReaderMore.




(** ** dump *)

Lemma dump_ext_loop_enc fuel df i extlen :
  use64bit df = false ->
  forall extofs encdat ranges,
    res_map fst (dump_ext_loop fuel df i extlen extofs encdat ranges)
    = ext_loop fuel df extlen extofs encdat.
Proof.
  intros H32. induction fuel as [|f IH]; intros extofs encdat ranges;
    cbn [dump_ext_loop ext_loop]; destruct (blen encdat <? extlen);
    try reflexivity.
  rewrite H32.
  destruct (unpack_le 4 (upto 4 (readdata df extofs (blocksize df))));
    cbn [bind]; try reflexivity.
  apply IH.
Qed.

Lemma dump_enc_enc fuel df i d ranges :
  use64bit df = false ->
  res_map (fun x => fst (fst x)) (dump_enc fuel df i d ranges)
  = readrec_enc fuel df d.
Proof.
  intros H32. destruct d as [[ofs ln] chk]. unfold dump_enc, readrec_enc.
  destruct (is_empty _); [reflexivity|].
  destruct (Z.shiftr ln 24 =? 0); [|reflexivity].
  rewrite H32.
  destruct (unpack_LL _) as [[extofs extlen]| |]; cbn [bind res_map];
    try reflexivity.
  rewrite <- (dump_ext_loop_enc fuel df i extlen H32 extofs _
                (ranges ++ [(ofs, ofs + Z.land ln 0xFFFFFFF,
                             ("item #" ++ fmt_d i)%string)])).
  destruct (dump_ext_loop _ _ _ _ _ _ _) as [[e r]| |]; reflexivity.
Qed.

Lemma dump_ext_loop_ranges fuel df i extlen :
  0 <= blocksize df ->
  forall extofs encdat ranges e ranges',
    0 <= extofs ->
    dump_ext_loop fuel df i extlen extofs encdat ranges = Ret (e, ranges') ->
    exists added, ranges' = ranges ++ added /\ Forall range_ok added.
Proof.
  intros Hb. induction fuel as [|f IH]; intros extofs encdat ranges e ranges' Ho;
    cbn [dump_ext_loop]; destruct (blen encdat <? extlen); try discriminate;
    try (intros E; inversion E; subst; exists []; split;
         [now rewrite app_nil_r | constructor]).
  destruct (if use64bit df then _ else _) as [p| |] eqn:Ep; cbn [bind];
    try discriminate.
  intros E. apply IH in E.
  - destruct E as (added & -> & F).
    eexists. rewrite <- app_assoc. split; [reflexivity|].
    constructor; [|exact F].
    unfold range_ok, r_start, r_end; cbn [fst snd]. lia.
  - unfold unpack_le in Ep.
    destruct (use64bit df); destruct (Nat.eqb _ _); inversion Ep;
      apply le_int_nonneg.
Qed.

Lemma dump_enc_ranges fuel df i ofs ln chk ranges e tl ranges' :
  0 <= blocksize df -> 0 <= ofs ->
  dump_enc fuel df i (ofs, ln, chk) ranges = Ret (e, tl, ranges') ->
  exists added,
    ranges' = ranges ++ (ofs, ofs + Z.land ln 0xFFFFFFF,
                         ("item #" ++ fmt_d i)%string) :: added /\
    Forall range_ok added.
Proof.
  intros Hb Ho. unfold dump_enc.
  assert (Done : forall x : bytes * bytes * list range,
            snd x = ranges ++ [(ofs, ofs + Z.land ln 0xFFFFFFF,
                                ("item #" ++ fmt_d i)%string)] ->
            Ret x = Ret (e, tl, ranges') ->
            exists added,
              ranges' = ranges ++ (ofs, ofs + Z.land ln 0xFFFFFFF,
                                   ("item #" ++ fmt_d i)%string) :: added /\
              Forall range_ok added).
  { intros x Hx E. inversion E; subst. cbn [snd] in Hx. exists [].
    split; [exact Hx | constructor]. }
  destruct (is_empty _); [apply Done; reflexivity|].
  destruct (Z.shiftr ln 24 =? 0); [|apply Done; reflexivity].
  destruct (if use64bit df then _ else _) as [[extofs extlen]| |] eqn:Ep;
    cbn [bind]; try discriminate.
  destruct (dump_ext_loop _ _ _ _ _ _ _) as [[e0 r0]| |] eqn:El; cbn [bind];
    try discriminate.
  intros E. inversion E; subst.
  apply dump_ext_loop_ranges in El; [|exact Hb|].
  - destruct El as (added & -> & F). exists added.
    rewrite <- app_assoc. split; [reflexivity | exact F].
  - unfold unpack_QL, unpack_LL in Ep.
    destruct (use64bit df); destruct (Nat.eqb _ _); inversion Ep;
      apply le_int_nonneg.
Qed.

Section DumpFacts.

Variable koddecode : Z -> bytes -> bytes.
Variable inflate : bytes -> option bytes.

Lemma dump_items_readrec fuel df :
  use64bit df = false ->
  forall l i0 ranges lines ranges',
    dump_items koddecode inflate fuel df true i0 l ranges = Ret (lines, ranges') ->
    length lines = length l /\
    forall k d, nth_error l k = Some d ->
      exists line,
        nth_error lines k = Some line /\
        readrec_desc koddecode inflate fuel df (Z.of_nat (i0 + k) + 1) d
        = Ret (option_map fst line).
Proof.
  intros H32. induction l as [|d l IH]; intros i0 ranges lines ranges' E.
  - cbn [dump_items] in E. inversion E; subst. split; [reflexivity|].
    intros [|k] d0 H; discriminate H.
  - cbn [dump_items] in E. destruct d as [[ofs ln] chk].
    destruct (Z.eqb_spec ln 0xFFFFFFFF) as [Hdel|Hdel].
    + destruct (dump_items koddecode inflate fuel df true (S i0) l ranges)
        as [[lines0 r0]| |] eqn:Er; cbn [bind] in E; try discriminate.
      inversion E; subst. destruct (IH _ _ _ _ Er) as (Hlen & Hk).
      split; [cbn [length]; now rewrite Hlen|].
      intros [|k] d0 H; cbn [nth_error] in H.
      * inversion H; subst. exists None. split; [reflexivity|].
        unfold readrec_desc. now rewrite Z.eqb_refl.
      * destruct (Hk k d0 H) as (line & Hl & Hr). exists line.
        split; [exact Hl|].
        replace (i0 + S k)%nat with (S i0 + k)%nat by lia. exact Hr.
    + pose proof (dump_enc_enc fuel df i0 (ofs, ln, chk) ranges H32) as Henc.
      destruct (dump_enc fuel df i0 (ofs, ln, chk) ranges)
        as [[[encdat tl] r1]| |] eqn:Ed; cbn [bind] in E; try discriminate.
      cbn [res_map bind fst] in Henc.
      set (decdat := if negb (Z.land (encoding df) 1 =? 0)
                     then koddecode (Z.of_nat i0 + 1) encdat else encdat) in *.
      destruct (iscompressed decdat) as [c| |] eqn:Ec; cbn [bind] in E;
        try discriminate.
      destruct (if c then decompress inflate decdat else Ret decdat)
        as [plain| |] eqn:Ep; cbn [bind] in E; try discriminate.
      destruct (dump_items koddecode inflate fuel df true (S i0) l r1)
        as [[lines0 r0]| |] eqn:Er; cbn [bind] in E; try discriminate.
      inversion E; subst. destruct (IH _ _ _ _ Er) as (Hlen & Hk).
      split; [cbn [length]; now rewrite Hlen|].
      intros [|k] d0 H; cbn [nth_error] in H.
      * inversion H; subst. exists (Some (plain, tl)). split; [reflexivity|].
        unfold readrec_desc.
        destruct (Z.eqb_spec ln 0xFFFFFFFF); [contradiction|].
        rewrite <- Henc. cbn [bind]. unfold decode.
        rewrite Nat.add_0_r. fold decdat. rewrite Ec. cbn [bind].
        rewrite Ep. reflexivity.
      * destruct (Hk k d0 H) as (line & Hl & Hr). exists line.
        split; [exact Hl|].
        replace (i0 + S k)%nat with (S i0 + k)%nat by lia. exact Hr.
Qed.

(** X10: on a 32-bit archive, [dump] with [args.decompress] prints what
    [readrec] returns. When [dump] returns, it has one line per descriptor,
    and line [k] (counted from 0) carries the result of [readrec] for
    record [k + 1]: nothing for a deleted record, else the very bytes, with
    [koddecode] keyed by [k + 1]. *)
Theorem dump_lines_readrec fuel df verbose lines ranges unref :
  use64bit df = false ->
  dump koddecode inflate fuel df true verbose = Ret (lines, ranges, unref) ->
  length lines = length (tadidx df) /\
  forall k line, nth_error lines k = Some line ->
    readrec koddecode inflate fuel df (Z.of_nat k + 1)
    = Ret (option_map fst line).
Proof.
  intros H32 E. unfold dump in E.
  destruct (dump_items koddecode inflate fuel df true 0 (tadidx df) [])
    as [[lines0 r0]| |] eqn:Ei; cbn [bind] in E; try discriminate.
  inversion E; subst.
  destruct (dump_items_readrec fuel df H32 _ _ _ _ _ Ei) as (Hlen & Hk).
  split; [exact Hlen|].
  intros k line Hl.
  assert (Hlt : (k < length (tadidx df))%nat).
  { rewrite <- Hlen. apply nth_error_Some. congruence. }
  destruct (py_index_nonneg (tadidx df) (Z.of_nat k + 1 - 1)) as (d & Hd & Hp);
    [lia|].
  replace (Z.to_nat (Z.of_nat k + 1 - 1)) with k in Hd by lia.
  destruct (Hk k d Hd) as (line' & Hl' & Hr).
  rewrite Hl in Hl'. inversion Hl'; subst.
  unfold readrec. destruct (Z.eqb_spec (Z.of_nat k + 1) 0); [lia|].
  rewrite Hp. cbn [bind]. exact Hr.
Qed.

Lemma dump_items_ranges fuel df dc :
  0 <= blocksize df ->
  forall l i0 ranges lines ranges',
    Forall (fun d : descriptor => 0 <= fst (fst d)) l ->
    dump_items koddecode inflate fuel df dc i0 l ranges = Ret (lines, ranges') ->
    exists added,
      ranges' = ranges ++ added /\ Forall range_ok added /\
      forall k ofs ln chk,
        nth_error l k = Some (ofs, ln, chk) -> ln <> 0xFFFFFFFF ->
        In (ofs, ofs + Z.land ln 0xFFFFFFF,
            ("item #" ++ fmt_d (i0 + k))%string) added.
Proof.
  intros Hb. induction l as [|d l IH]; intros i0 ranges lines ranges' F E.
  - cbn [dump_items] in E. inversion E; subst. exists [].
    split; [now rewrite app_nil_r|]. split; [constructor|].
    intros [|k] ofs ln chk H; discriminate H.
  - inversion F as [|? ? Hd Fl]; subst.
    cbn [dump_items] in E. destruct d as [[ofs ln] chk]. cbn [fst snd] in Hd.
    destruct (Z.eqb_spec ln 0xFFFFFFFF) as [Hdel|Hdel].
    + destruct (dump_items koddecode inflate fuel df dc (S i0) l ranges)
        as [[lines0 r0]| |] eqn:Er; cbn [bind] in E; try discriminate.
      inversion E; subst.
      destruct (IH _ _ _ _ Fl Er) as (added & -> & Fa & Hin).
      exists added. split; [reflexivity|]. split; [exact Fa|].
      intros [|k] ofs0 ln0 chk0 H Hn; cbn [nth_error] in H.
      * inversion H; subst. contradiction.
      * replace (i0 + S k)%nat with (S i0 + k)%nat by lia. eapply Hin; eauto.
    + destruct (dump_enc fuel df i0 (ofs, ln, chk) ranges)
        as [[[encdat tl] r1]| |] eqn:Ed; cbn [bind] in E; try discriminate.
      destruct (dump_enc_ranges _ _ _ _ _ _ _ _ _ _ Hb Hd Ed) as (a1 & -> & F1).
      destruct (if dc then _ else _) as [c| |]; cbn [bind] in E;
        try discriminate.
      destruct (if c then _ else _) as [plain| |]; cbn [bind] in E;
        try discriminate.
      destruct (dump_items koddecode inflate fuel df dc (S i0) l _)
        as [[lines0 r0]| |] eqn:Er; cbn [bind] in E; try discriminate.
      inversion E; subst.
      destruct (IH _ _ _ _ Fl Er) as (added & -> & Fa & Hin).
      exists (((ofs, ofs + Z.land ln 0xFFFFFFF, ("item #" ++ fmt_d i0)%string)
                 :: a1) ++ added).
      split; [now rewrite <- app_assoc|]. split.
      * apply Forall_app. split; [|exact Fa]. constructor; [|exact F1].
        unfold range_ok, r_start, r_end; cbn [fst snd].
        assert (0 <= Z.land ln 0xFFFFFFF) by (apply Z.land_nonneg; right; lia).
        lia.
      * intros [|k] ofs0 ln0 chk0 H Hn; cbn [nth_error] in H.
        -- inversion H; subst. rewrite Nat.add_0_r. left. reflexivity.
        -- apply in_or_app. right.
           replace (i0 + S k)%nat with (S i0 + k)%nat by lia. eapply Hin; eauto.
Qed.

(** X11: what [dump] with [args.verbose] accounts for. On an archive whose
    blocksize and descriptor offsets are not negative (as in every
    constructed archive), when [dump] returns: every descriptor that is not
    deleted has its primary range, from its offset over its masked length,
    among the touched ranges under its 0-based item number; every offset of
    the container lies in a touched range or in a reported unreferenced
    range; and the unreferenced ranges are non-empty, in increasing order,
    and no offset lies in two of them. *)
Theorem dump_accounts fuel df dc lines ranges unref :
  0 <= blocksize df ->
  Forall (fun d : descriptor => 0 <= fst (fst d)) (tadidx df) ->
  dump koddecode inflate fuel df dc true = Ret (lines, ranges, unref) ->
  (forall k ofs ln chk,
     nth_error (tadidx df) k = Some (ofs, ln, chk) -> ln <> 0xFFFFFFFF ->
     In (ofs, ofs + Z.land ln 0xFFFFFFF, ("item #" ++ fmt_d k)%string) ranges) /\
  (forall x, 0 <= x < datsize df ->
     (exists r, In r ranges /\ in_range x r) \/
     (exists y, In y unref /\ in_yield x y)) /\
  chain 0 unref /\
  (forall i j y1 y2 x,
     nth_error unref i = Some y1 -> nth_error unref j = Some y2 ->
     in_yield x y1 -> in_yield x y2 -> i = j).
Proof.
  intros Hb F E. unfold dump in E.
  destruct (dump_items koddecode inflate fuel df dc 0 (tadidx df) [])
    as [[lines0 r0]| |] eqn:Ei; cbn [bind] in E; try discriminate.
  inversion E; subst. clear E.
  destruct (dump_items_ranges fuel df dc Hb _ _ _ _ _ F Ei) as (added & -> & Fa & Hin).
  cbn [app] in *.
  assert (C : chain 0 (enumunreferenced added (datsize df))).
  { unfold enumunreferenced. rewrite Forall_forall in Fa.
    apply enum_loop_chain; [apply sorted_sorted | | lia |];
      intros r Hr; apply (proj1 (In_sorted _ _)) in Hr; apply Fa in Hr;
      unfold range_ok in Hr; lia. }
  split; [|split; [|split]].
  - intros k ofs ln chk H Hn. apply (Hin k ofs ln chk H Hn).
  - intros x Hx. unfold enumunreferenced.
    destruct (enum_loop_cover (datsize df) (sorted added) 0 x Hx)
      as [(r & Hr & Hi)|Hy]; [left|right; exact Hy].
    exists r. split; [now apply (proj1 (In_sorted _ _)) | exact Hi].
  - exact C.
  - eapply chain_at_most_one; eauto.
Qed.

End DumpFacts.

(** [dump_lines_readrec] on line 0 of [a32]. *)
Lemma dump_lines_readrec_witness :
  readrec kod_plain inflate_stored 0 a32 (Z.of_nat 0 + 1) = Ret (Some hello).
Proof.
  refine (proj2 (dump_lines_readrec kod_plain inflate_stored 0 a32 false
                   [Some (hello, []); None; Some (hello, []); Some (hello, [])]
                   _ [] eq_refl eq_refl) 0%nat (Some (hello, [])) eq_refl).
Defined.

(** [dump_accounts] on [a_nested]: record 2 has its range 33..35 among the
    touched ranges as item #1. *)
Lemma dump_accounts_witness :
  In (33, 33 + Z.land 0x80000002 0xFFFFFFF, ("item #" ++ fmt_d 1)%string)
     [(32, 37, "item #0"%string); (33, 35, "item #1"%string)].
Proof.
  refine (proj1 (dump_accounts kod_plain inflate_stored 0 a_nested true
                   [Some (hello, []); Some ([x65; x6c], [])]
                   [(32, 37, "item #0"%string); (33, 35, "item #1"%string)]
                   [(0, 32); (35, 5)] _ _ eq_refl)
                1%nat 33 0x80000002 0 eq_refl _).
  - discriminate.
  - repeat constructor; discriminate.
  - discriminate.
Defined.

(** ** The chunk envelope *)

Lemma be_int_be_bytes2 n : 0 <= n < 65536 -> be_int (be_bytes2 n) = n.
Proof.
  intros H. unfold be_int, be_bytes2. cbn [rev app le_int].
  rewrite !to_N_bz.
  - pose proof (Z.div_mod n 256). lia.
  - split; [apply Z.div_pos; lia | apply Z.div_lt_upper_bound; lia].
  - apply Z.mod_pos_bound. lia.
Qed.

Lemma from_app_plus pre k X : 0 <= k -> from (blen pre + k) (pre ++ X) = from k X.
Proof.
  intros Hk. unfold from, blen.
  replace (Z.to_nat (Z.of_nat (length pre) + k))
    with (Z.to_nat k + length pre)%nat by lia.
  rewrite <- skipn_skipn, skipn_app, Nat.sub_diag, skipn_all. reflexivity.
Qed.

Lemma from_app_blen pre X : from (blen pre) (pre ++ X) = X.
Proof.
  rewrite <- (Z.add_0_r (blen pre)). rewrite from_app_plus by lia. reflexivity.
Qed.

Lemma blen_pack_chunk c :
  length (c_crc c) = 4%nat -> blen (pack_chunk c) = blen (c_data c) + 8.
Proof.
  intros H. unfold pack_chunk, blen, be_bytes2.
  rewrite !length_app, H. cbn [length]. lia.
Qed.

Lemma chunk_header pre c rest :
  chunk_ok c ->
  unpack_from_HH (pre ++ pack_chunk c ++ rest) (blen pre)
  = Ret (blen (c_data c) + 6, c_flag c).
Proof.
  intros (Hf & Hc & Hs). unfold unpack_from_HH, field_at.
  rewrite from_app_blen. unfold pack_chunk. rewrite <- !app_assoc.
  cbn [be_bytes2 app firstn length Nat.eqb bind skipn].
  change [bz ((blen (c_data c) + 6) / 256); bz ((blen (c_data c) + 6) mod 256)]
    with (be_bytes2 (blen (c_data c) + 6)).
  change [bz (c_flag c / 256); bz (c_flag c mod 256)] with (be_bytes2 (c_flag c)).
  pose proof (blen_nonneg (c_data c)).
  rewrite !be_int_be_bytes2 by lia.
  reflexivity.
Qed.

Lemma chunk_crc pre c rest :
  chunk_ok c ->
  exists crc, unpack_from_L (pre ++ pack_chunk c ++ rest) (blen pre + 4) = Ret crc.
Proof.
  intros (Hf & Hc & Hs). unfold unpack_from_L, field_at.
  rewrite from_app_plus by lia. unfold pack_chunk, from. rewrite <- !app_assoc.
  destruct (c_crc c) as [|c1 [|c2 [|c3 [|c4 [|]]]]]; try discriminate Hc.
  eexists. reflexivity.
Qed.

Lemma chunk_data pre c rest :
  chunk_ok c ->
  slice (blen pre + 8) (blen pre + 8 + (blen (c_data c) + 6) - 6)
        (pre ++ pack_chunk c ++ rest) = c_data c.
Proof.
  intros (Hf & Hc & Hs). unfold slice.
  rewrite from_app_plus by lia. unfold pack_chunk, from, upto.
  rewrite <- !app_assoc.
  destruct (c_crc c) as [|c1 [|c2 [|c3 [|c4 [|]]]]]; try discriminate Hc.
  cbn [be_bytes2 app]. change (Z.to_nat 8) with 8%nat. cbn [skipn].
  replace (Z.to_nat (blen pre + 8 + (blen (c_data c) + 6) - 6 - (blen pre + 8)))
    with (length (c_data c)) by (unfold blen; lia).
  rewrite firstn_app, Nat.sub_diag, firstn_all. cbn [firstn]. apply app_nil_r.
Qed.

Lemma walk_chunks term : blen term = 3 ->
  forall cs pre, Forall chunk_ok cs ->
    walk (pre ++ concat (map pack_chunk cs) ++ term) (blen pre)
         (blen (pre ++ concat (map pack_chunk cs) ++ term) - 3).
Proof.
  intros Ht. induction cs as [|c cs IH]; intros pre F.
  - cbn [map concat app]. rewrite blen_app, Ht.
    replace (blen pre + 3 - 3) with (blen pre) by lia. constructor.
  - inversion F as [|? ? Hc Fs]; subst.
    cbn [map concat]. rewrite <- app_assoc.
    pose proof (blen_pack_chunk c (proj1 (proj2 Hc))) as Lc.
    pose proof (blen_nonneg (c_data c)).
    pose proof (blen_nonneg (concat (map pack_chunk cs))).
    eapply walk_chunk.
    + rewrite !blen_app, Lc, Ht. lia.
    + apply chunk_header. exact Hc.
    + apply Hc.
    + replace (blen pre + (blen (c_data c) + 6 + 2))
        with (blen (pre ++ pack_chunk c)) by (rewrite blen_app, Lc; lia).
      specialize (IH (pre ++ pack_chunk c) Fs).
      rewrite <- !app_assoc in IH. exact IH.
Qed.

Lemma envelope_iscompressed cs :
  cs <> [] -> Forall chunk_ok cs -> iscompressed (envelope cs) = Ret true.
Proof.
  intros Hne F. unfold iscompressed, envelope.
  assert (L : 11 <= blen (concat (map pack_chunk cs) ++ [x00; x00; x02])).
  { destruct cs as [|c cs]; [contradiction|]. inversion F as [|? ? Hc _]; subst.
    cbn [map concat]. rewrite !blen_app, (blen_pack_chunk c (proj1 (proj2 Hc))).
    pose proof (blen_nonneg (c_data c)).
    pose proof (blen_nonneg (concat (map pack_chunk cs))).
    change (blen [x00; x00; x02]) with 3. lia. }
  destruct (Z.ltb_spec (blen (concat (map pack_chunk cs) ++ [x00; x00; x02])) 11);
    [lia|].
  replace (from (blen (concat (map pack_chunk cs) ++ [x00; x00; x02]) - 3)
                (concat (map pack_chunk cs) ++ [x00; x00; x02]))
    with [x00; x00; x02].
  - cbn [bytes_eqb Byte.eqb andb negb].
    eapply iscompressed_loop_complete.
    + exact (walk_chunks [x00; x00; x02] eq_refl cs [] F).
    + apply Z.le_refl.
    + unfold blen. lia.
  - rewrite blen_app. change (blen [x00; x00; x02]) with 3.
    replace (blen (concat (map pack_chunk cs)) + 3 - 3)
      with (blen (concat (map pack_chunk cs))) by lia.
    now rewrite from_app_blen.
Qed.

Lemma length_chunks cs :
  Forall chunk_ok cs -> (length cs <= length (concat (map pack_chunk cs)))%nat.
Proof.
  induction 1 as [|c cs Hc _ IH]; cbn [map concat length]; [lia|].
  rewrite length_app.
  pose proof (blen_pack_chunk c (proj1 (proj2 Hc))) as L. unfold blen in L. lia.
Qed.

Section EnvelopeFacts.

Variable koddecode : Z -> bytes -> bytes.
Variable inflate : bytes -> option bytes.

Lemma decompress_loop_chunks term : blen term = 3 ->
  forall cs rs, Forall chunk_ok cs ->
    Forall2 (fun c r => inflate (c_data c) = Some r) cs rs ->
    forall pre acc fuel, (length cs <= fuel)%nat ->
      decompress_loop inflate fuel (pre ++ concat (map pack_chunk cs) ++ term)
                      (blen pre) acc
      = Ret (acc ++ concat rs).
Proof.
  intros Ht cs rs F F2. revert F.
  induction F2 as [|c r cs rs Hr _ IH]; intros F pre acc fuel Hfuel.
  - cbn [map concat app].
    assert (E : (blen pre <? blen (pre ++ term) - 3) = false).
    { apply Z.ltb_ge. rewrite blen_app. lia. }
    destruct fuel; cbn [decompress_loop]; rewrite E, app_nil_r; reflexivity.
  - inversion F as [|? ? Hc Fs]; subst.
    destruct fuel as [|f]; [cbn [length] in Hfuel; lia|].
    cbn [map concat]. rewrite <- app_assoc. cbn [decompress_loop].
    pose proof (blen_pack_chunk c (proj1 (proj2 Hc))) as Lc.
    pose proof (blen_nonneg (c_data c)).
    pose proof (blen_nonneg (concat (map pack_chunk cs))).
    destruct (Z.ltb_spec (blen pre)
                (blen (pre ++ pack_chunk c ++ concat (map pack_chunk cs) ++ term) - 3));
      [|rewrite !blen_app in *; lia].
    rewrite chunk_header by exact Hc. cbn [bind].
    destruct (chunk_crc pre c (concat (map pack_chunk cs) ++ term) Hc) as (crc & ->).
    cbn [bind]. rewrite chunk_data by exact Hc.
    unfold zlib_decompress. rewrite Hr. cbn [bind].
    replace (blen pre + (blen (c_data c) + 6 + 2))
      with (blen (pre ++ pack_chunk c)) by (rewrite blen_app, Lc; lia).
    specialize (IH Fs (pre ++ pack_chunk c) (acc ++ r) f).
    rewrite <- !app_assoc in IH. rewrite IH by (cbn [length] in Hfuel; lia).
    cbn [concat]. reflexivity.
Qed.

Lemma envelope_decompress cs rs :
  Forall chunk_ok cs ->
  Forall2 (fun c r => inflate (c_data c) = Some r) cs rs ->
  decompress inflate (envelope cs) = Ret (concat rs).
Proof.
  intros F F2. unfold decompress, envelope.
  apply (decompress_loop_chunks [x00; x00; x02] eq_refl cs rs F F2 [] []).
  rewrite length_app. pose proof (length_chunks cs F). lia.
Qed.

(** X12: the envelope that the docstring of [decompress] describes is
    recognised and inverted, and the stored crc is never looked at. For at
    least one chunk, each with flag 0x0800 or 0x0008, any four crc bytes
    and data whose size fits the size field, [iscompressed] accepts the
    packed record, and [decompress] returns the concatenation of what
    inflate gives for the chunks' data, in order. *)
Theorem envelope_roundtrip cs rs :
  cs <> [] -> Forall chunk_ok cs ->
  Forall2 (fun c r => inflate (c_data c) = Some r) cs rs ->
  iscompressed (envelope cs) = Ret true /\
  decompress inflate (envelope cs) = Ret (concat rs).
Proof.
  intros Hne F F2. split.
  - now apply envelope_iscompressed.
  - now apply envelope_decompress.
Qed.

(** X13: [readrec] on a compressed inline record. When a record that is not
    deleted has a non-zero flag byte and its bytes, after [koddecode] if
    encoding bit 0 is set, are the envelope of chunks that inflate to
    [rs], [readrec] returns the concatenation of [rs], with no fuel. *)
Theorem readrec_compressed fuel df idx ofs ln chk cs rs :
  idx <> 0 -> py_index (tadidx df) (idx - 1) = Ret (ofs, ln, chk) ->
  ln <> 0xFFFFFFFF -> Z.shiftr ln 24 <> 0 ->
  (if negb (Z.land (encoding df) 1 =? 0)
   then koddecode idx (readdata df ofs (Z.land ln 0xFFFFFFF))
   else readdata df ofs (Z.land ln 0xFFFFFFF)) = envelope cs ->
  cs <> [] -> Forall chunk_ok cs ->
  Forall2 (fun c r => inflate (c_data c) = Some r) cs rs ->
  readrec koddecode inflate fuel df idx = Ret (Some (concat rs)).
Proof.
  intros Hi Hd Hdel Hf He Hne F F2.
  unfold readrec. destruct (Z.eqb_spec idx 0); [contradiction|].
  rewrite Hd. cbn [bind]. unfold readrec_desc.
  destruct (Z.eqb_spec ln 0xFFFFFFFF); [contradiction|].
  rewrite readrec_enc_inline by exact Hf. cbn [bind]. unfold decode.
  rewrite He, (envelope_iscompressed cs Hne F). cbn [bind].
  rewrite (envelope_decompress cs rs F F2). reflexivity.
Qed.

End EnvelopeFacts.

(** ** safename *)

Lemma str_replace1_map old new s :
  str_replace1 old new s = map (fun c => if c =? old then new else c) s.
Proof. reflexivity. Qed.

Lemma safename_map name :
  safename name = map (fun c => if unsafe_char c then 95 else c) name.
Proof.
  unfold safename, str_replace1. rewrite !map_map. apply map_ext.
  intros c. unfold unsafe_char.
  destruct (Z.eqb_spec c 58) as [->|H1]; [reflexivity|].
  destruct (Z.eqb_spec c 47) as [->|H2]; [reflexivity|].
  destruct (Z.eqb_spec c 92) as [->|H3]; reflexivity.
Qed.

Lemma safename_chars name c : In c (safename name) -> unsafe_char c = false.
Proof.
  rewrite safename_map. intros H. apply in_map_iff in H.
  destruct H as (x & <- & _). destruct (unsafe_char x) eqn:E; [reflexivity | exact E].
Qed.

(** X14: [safename] keeps the length of a name and changes exactly the
    characters ':', '/' and backslash, each to '_'; so its result holds none
    of them, a name without them is unchanged, applying it twice changes
    nothing more, and the file name [cvs] builds from a name and an
    extension, safename(name) + "." + safename(ext), holds no path
    separator either. *)
Theorem safename_safe name ext :
  length (safename name) = length name /\
  safename name = map (fun c => if unsafe_char c then 95 else c) name /\
  (forall c, In c (safename name) -> unsafe_char c = false) /\
  ((forall c, In c name -> unsafe_char c = false) -> safename name = name) /\
  safename (safename name) = safename name /\
  (forall c, In c (safename name ++ [46] ++ safename ext) -> unsafe_char c = false).
Proof.
  assert (Fix : forall s, (forall c, In c s -> unsafe_char c = false) ->
                          safename s = s).
  { intros s H. rewrite safename_map. rewrite <- (map_id s) at 2.
    apply map_ext_in. intros c Hc. now rewrite (H c Hc). }
  split; [rewrite safename_map; apply length_map|].
  split; [apply safename_map|].
  split; [apply safename_chars|].
  split; [apply Fix|].
  split; [apply Fix, safename_chars|].
  intros c H. apply in_app_or in H. destruct H as [H|H]; [now apply safename_chars in H|].
  apply in_app_or in H. destruct H as [[<-|[]]|H]; [reflexivity|].
  now apply safename_chars in H.
Qed.

Lemma a_comp_init : Datafile_init comp_dat comp_tad = Ret a_comp.
Proof. reflexivity. Qed.

Lemma hello_chunk_ok : chunk_ok hello_chunk.
Proof. split; [now left | split; [reflexivity | vm_compute; reflexivity]]. Qed.

(** [envelope_roundtrip] on the one chunk "Hello" with the stored-only
    inflate. *)
Lemma envelope_roundtrip_witness :
  iscompressed (envelope [hello_chunk]) = Ret true /\
  decompress inflate_stored (envelope [hello_chunk]) = Ret (concat [hello]).
Proof.
  apply (envelope_roundtrip inflate_stored [hello_chunk] [hello]).
  - discriminate.
  - constructor; [exact hello_chunk_ok | constructor].
  - constructor; [reflexivity | constructor].
Defined.

(** [readrec_compressed] on the record of [a_comp]. *)
Lemma readrec_compressed_witness :
  readrec kod_plain inflate_stored 0 a_comp 1 = Ret (Some (concat [hello])).
Proof.
  apply (readrec_compressed kod_plain inflate_stored 0 a_comp 1 32 0x80000010 0
           [hello_chunk] [hello]).
  - discriminate.
  - reflexivity.
  - discriminate.
  - discriminate.
  - reflexivity.
  - discriminate.
  - constructor; [exact hello_chunk_ok | constructor].
  - constructor; [reflexivity | constructor].
Defined.

(** ** Termination *)

Section TerminationFacts.

Variable koddecode : Z -> bytes -> bytes.
Variable inflate : bytes -> option bytes.

(** X15: the chunk walk of [decompress] ends on every input: [decompress]
    returns a buffer, or raises struct.error (a chunk header whose crc
    field runs past the end of the data) or zlib.error. *)
Theorem decompress_terminates data :
  (exists r, decompress inflate data = Ret r) \/
  decompress inflate data = Raise StructError \/
  decompress inflate data = Raise ZlibError.
Proof.
  pose proof (decompress_fuel inflate data) as Hf.
  destruct (decompress inflate data) as [r|e|] eqn:E.
  - left. eauto.
  - right. unfold decompress in E. apply decompress_loop_raise in E.
    destruct E as [-> | ->]; auto.
  - contradiction.
Qed.

Lemma decode_fuel df idx encdat :
  decode koddecode inflate df idx encdat <> OutOfFuel.
Proof.
  unfold decode.
  destruct (iscompressed_total
              (if negb (Z.land (encoding df) 1 =? 0)
               then koddecode idx encdat else encdat)) as [c ->].
  cbn [bind]. destruct c; [apply decompress_fuel | discriminate].
Qed.

(** X16: [readrec] can only keep running in the extension loop. If it has
    not finished with some amount of fuel, then the index is valid, the
    descriptor is not deleted, its flag byte is 0, the 8-byte prefix was
    read, and it is the loop over the extension blocks that has used up
    the fuel; deleted, empty and inline records finish with no fuel. *)
Theorem readrec_out_of_fuel fuel df idx :
  readrec koddecode inflate fuel df idx = OutOfFuel ->
  exists ofs ln chk extofs extlen,
    py_index (tadidx df) (idx - 1) = Ret (ofs, ln, chk) /\
    ln <> 0xFFFFFFFF /\ Z.shiftr ln 24 = 0 /\
    unpack_LL (upto 8 (readdata df ofs (Z.land ln 0xFFFFFFF))) = Ret (extofs, extlen) /\
    ext_loop fuel df extlen extofs
             (from 8 (readdata df ofs (Z.land ln 0xFFFFFFF))) = OutOfFuel.
Proof.
  unfold readrec. destruct (idx =? 0); [discriminate|].
  destruct (py_index (tadidx df) (idx - 1)) as [[[ofs ln] chk]| |] eqn:Ep;
    cbn [bind]; try discriminate.
  - unfold readrec_desc. destruct (Z.eqb_spec ln 0xFFFFFFFF); [discriminate|].
    destruct (readrec_enc fuel df (ofs, ln, chk)) as [e| |] eqn:Ee; cbn [bind];
      try discriminate.
    + pose proof (decode_fuel df idx e) as Hd.
      destruct (decode koddecode inflate df idx e); cbn [bind];
        try discriminate. contradiction.
    + intros _. unfold readrec_enc in Ee.
      destruct (is_empty _); [discriminate|].
      destruct (Z.eqb_spec (Z.shiftr ln 24) 0) as [Hf|]; [|discriminate].
      destruct (unpack_LL _) as [[extofs extlen]| |] eqn:Eu; cbn [bind] in Ee.
      * destruct (ext_loop _ _ _ _ _) eqn:El; cbn [bind] in Ee;
          try discriminate Ee.
        exists ofs, ln, chk, extofs, extlen.
        repeat (split; [first [reflexivity | assumption]|]). assumption.
      * discriminate Ee.
      * unfold unpack_LL in Eu. destruct (Nat.eqb _ _); discriminate Eu.
  - unfold py_index in Ep.
    destruct (_ && _); [destruct (nth_error _ _)|]; discriminate.
Qed.

End TerminationFacts.

(** [readrec_out_of_fuel] on [a_loop] with three rounds of fuel. *)
Lemma readrec_out_of_fuel_witness :
  exists ofs ln chk extofs extlen,
    py_index (tadidx a_loop) (1 - 1) = Ret (ofs, ln, chk) /\
    ln <> 0xFFFFFFFF /\ Z.shiftr ln 24 = 0 /\
    unpack_LL (upto 8 (readdata a_loop ofs (Z.land ln 0xFFFFFFF)))
      = Ret (extofs, extlen) /\
    ext_loop 3 a_loop extlen extofs
             (from 8 (readdata a_loop ofs (Z.land ln 0xFFFFFFF))) = OutOfFuel.
Proof.
  exact (readrec_out_of_fuel kod_plain inflate_stored 3 a_loop 1 eq_refl).
Defined.

(** ** dump: extended records in both offset widths *)

Lemma unpack_le_value w b p : unpack_le w b = Ret p -> p = le_int b.
Proof.
  unfold unpack_le. destruct (Nat.eqb _ _); [|discriminate].
  intros E. inversion E. reflexivity.
Qed.

Lemma dump_ext_loop_chain fuel df i extlen :
  forall extofs encdat ranges e r,
    dump_ext_loop fuel df i extlen extofs encdat ranges = Ret (e, r) ->
    exists n, (n <= fuel)%nat /\
      e = encdat ++ concat (map snd (ext_chain df n extofs)) /\
      r = ranges ++ map (ext_range df i) (ext_chain df n extofs) /\
      extlen <= blen e /\
      forall k, (k < n)%nat ->
        blen (encdat ++ concat (map snd (ext_chain df k extofs))) < extlen.
Proof.
  assert (Stop : forall extofs encdat ranges e r fuel',
            extlen <= blen encdat ->
            @Ret (bytes * list range) (encdat, ranges) = Ret (e, r) ->
            exists n, (n <= fuel')%nat /\
              e = encdat ++ concat (map snd (ext_chain df n extofs)) /\
              r = ranges ++ map (ext_range df i) (ext_chain df n extofs) /\
              extlen <= blen e /\
              forall k, (k < n)%nat ->
                blen (encdat ++ concat (map snd (ext_chain df k extofs))) < extlen).
  { intros extofs encdat ranges e r fuel' Hge E. inversion E; subst.
    exists O. cbn [ext_chain map concat]. rewrite !app_nil_r.
    split; [lia|]. split; [reflexivity|]. split; [reflexivity|].
    split; [exact Hge|]. intros k Hk. lia. }
  induction fuel as [|f IH]; intros extofs encdat ranges e r;
    cbn [dump_ext_loop]; destruct (Z.ltb_spec (blen encdat) extlen) as [Hlt|Hge];
    try discriminate; try (now apply Stop).
  destruct (use64bit df) eqn:U.
  - destruct (unpack_le 8 _) as [p| |] eqn:Ep; cbn [bind]; try discriminate.
    apply unpack_le_value in Ep. subst p. intros E. apply IH in E.
    destruct E as (n & Hn & He & Hr & Hl & Hmin).
    exists (S n). cbn [ext_chain map concat]. rewrite U.
    split; [lia|].
    split; [rewrite He, <- app_assoc; reflexivity|].
    split; [rewrite Hr, <- app_assoc; reflexivity|].
    split; [exact Hl|].
    intros [|k] Hk; cbn [ext_chain map concat].
    + rewrite app_nil_r. exact Hlt.
    + rewrite U, app_assoc. apply Hmin. lia.
  - destruct (unpack_le 4 _) as [p| |] eqn:Ep; cbn [bind]; try discriminate.
    apply unpack_le_value in Ep. subst p. intros E. apply IH in E.
    destruct E as (n & Hn & He & Hr & Hl & Hmin).
    exists (S n). cbn [ext_chain map concat]. rewrite U.
    split; [lia|].
    split; [rewrite He, <- app_assoc; reflexivity|].
    split; [rewrite Hr, <- app_assoc; reflexivity|].
    split; [exact Hl|].
    intros [|k] Hk; cbn [ext_chain map concat].
    + rewrite app_nil_r. exact Hlt.
    + rewrite U, app_assoc. apply Hmin. lia.
Qed.

(** X17: [dump] reassembles extended records in both offset widths, and
    what it keeps is determined. With the prefix read as the archive's
    width asks (12 bytes, u64 and u32, in a 64-bit archive; 8 bytes, two
    u32, otherwise), when [dump] has gathered an extended record it has
    read some number [n] of blocks, following the chain of next-pointers
    from the prefix, and [n] is the least number for which the primary
    payload and the payloads of the first [n] blocks, each block without its
    pointer, reach the total length. The data it keeps is the first
    total-length bytes of that concatenation, so it has exactly the total
    length; the tail is all the rest, the overshoot; and the ranges it
    records are the primary range and one range of blocksize bytes per
    block read, in order. *)
Theorem dump_enc_extended fuel df i ofs ln chk ranges extofs extlen e tl r :
  Z.shiftr ln 24 = 0 ->
  (if use64bit df
   then unpack_QL (upto 12 (readdata df ofs (Z.land ln 0xFFFFFFF)))
   else unpack_LL (upto 8 (readdata df ofs (Z.land ln 0xFFFFFFF))))
  = Ret (extofs, extlen) ->
  dump_enc fuel df i (ofs, ln, chk) ranges = Ret (e, tl, r) ->
  exists n, (n <= fuel)%nat /\
    let primary := from (if use64bit df then 12 else 8)
                        (readdata df ofs (Z.land ln 0xFFFFFFF)) in
    let gathered := primary ++ concat (map snd (ext_chain df n extofs)) in
    (forall k, (k < n)%nat ->
       blen (primary ++ concat (map snd (ext_chain df k extofs))) < extlen) /\
    extlen <= blen gathered /\
    e = upto extlen gathered /\ tl = from extlen gathered /\
    blen e = extlen /\
    r = ranges
          ++ (ofs, ofs + Z.land ln 0xFFFFFFF, ("item #" ++ fmt_d i)%string)
          :: map (ext_range df i) (ext_chain df n extofs).
Proof.
  intros Hf Hp. unfold dump_enc. rewrite Hf, Hp.
  assert (H0 : 0 <= extlen).
  { unfold unpack_QL, unpack_LL in Hp.
    destruct (use64bit df); destruct (Nat.eqb _ _); inversion Hp;
      apply le_int_nonneg. }
  destruct (readdata df ofs (Z.land ln 0xFFFFFFF)) as [|x l] eqn:Ed.
  { destruct (use64bit df); discriminate Hp. }
  cbn [is_empty Z.eqb bind].
  destruct (dump_ext_loop _ _ _ _ _ _ _) as [[e0 r0]| |] eqn:El; cbn [bind];
    try discriminate.
  intros E. inversion E; subst. clear E.
  apply dump_ext_loop_chain in El.
  destruct El as (n & Hn & -> & -> & Hl & Hmin).
  exists n. split; [exact Hn|]. cbv zeta.
  split; [exact Hmin|]. split; [exact Hl|].
  split; [reflexivity|]. split; [reflexivity|].
  split; [apply blen_upto; lia|].
  rewrite <- app_assoc. reflexivity.
Qed.

Lemma a64x_init : Datafile_init ext64_dat ext64_tad = Ret a64x.
Proof. reflexivity. Qed.

(** [dump_enc_extended] on the 64-bit archive [a64x] with one round of
    fuel: [dump] reads the block at 64, keeps the 8 primary bytes and 12 of
    the block's 56, and has the other 44 as the tail. *)
Lemma dump_enc_extended_witness :
  dump_enc 1 a64x 0 (32, 20, 0) [] =
    Ret (repeat x41 8 ++ repeat x42 12, repeat x42 44,
         [(32, 52, "item #0"%string); (64, 128, "item #0 ext"%string)]) /\
  exists n, (n <= 1)%nat /\
    let primary := from 12 (readdata a64x 32 (Z.land 20 0xFFFFFFF)) in
    let gathered := primary ++ concat (map snd (ext_chain a64x n 64)) in
    (forall k, (k < n)%nat ->
       blen (primary ++ concat (map snd (ext_chain a64x k 64))) < 20) /\
    20 <= blen gathered /\
    repeat x41 8 ++ repeat x42 12 = upto 20 gathered /\
    repeat x42 44 = from 20 gathered /\
    blen (repeat x41 8 ++ repeat x42 12) = 20 /\
    [(32, 52, "item #0"%string); (64, 128, "item #0 ext"%string)] =
      [] ++ (32, 32 + Z.land 20 0xFFFFFFF, ("item #" ++ fmt_d 0)%string)
         :: map (ext_range a64x 0) (ext_chain a64x n 64).
Proof.
  split; [reflexivity|].
  exact (dump_enc_extended 1 a64x 0 32 20 0 [] 64 20
           (repeat x41 8 ++ repeat x42 12) (repeat x42 44)
           [(32, 52, "item #0"%string); (64, 128, "item #0 ext"%string)]
           eq_refl eq_refl eq_refl).
Defined.

(** ** Construction inverts the header format *)

Lemma readdathdr_pack hdrunk v enc bs body :
  length v = 5%nat -> v <> v0111 ->
  fits 2 hdrunk -> fits 2 enc -> fits 2 bs ->
  readdathdr (pack_header hdrunk v enc bs ++ body)
  = Ret (hdrunk, v, enc, bs, bytes_eqb v v0103).
Proof.
  intros Hv Hn Hh He Hb. apply bytes_eqb_neq in Hn.
  destruct v as [|v1 [|v2 [|v3 [|v4 [|v5 [|]]]]]]; try discriminate Hv.
  unfold readdathdr, pack_header, upto. change (Z.to_nat 19) with 19%nat.
  cbn [magic_CroFile le_bytes app firstn skipn length Nat.eqb].
  change (bytes_eqb [x43; x72; x6f; x46; x69; x6c; x65; x00] magic_CroFile)
    with true.
  cbn [negb]. rewrite Hn.
  change [bz (hdrunk mod 256); bz ((hdrunk / 256) mod 256)]
    with (le_bytes 2 hdrunk).
  change [bz (enc mod 256); bz ((enc / 256) mod 256)] with (le_bytes 2 enc).
  change [bz (bs mod 256); bz ((bs / 256) mod 256)] with (le_bytes 2 bs).
  rewrite !le_int_le_bytes by assumption. reflexivity.
Qed.

(** X18: construction inverts the header format. For a 5-byte version
    other than 01.11 and header fields that fit 16 bits, a container that
    starts with the packed 19-byte header constructs, whatever follows the
    header, the archive with exactly those fields (little-endian at offsets
    8, 15 and 17), with 64-bit offsets exactly for version 01.03, and with
    the index read by [readtad] in that width; it fails only as [readtad]
    fails. *)
Theorem Datafile_init_pack hdrunk v enc bs body t :
  length v = 5%nat -> v <> v0111 ->
  fits 2 hdrunk -> fits 2 enc -> fits 2 bs ->
  Datafile_init (pack_header hdrunk v enc bs ++ body) t =
  ('(nd, fd, idx) <- readtad (bytes_eqb v v0103) t ;;
   Ret (mkDatafile (pack_header hdrunk v enc bs ++ body) hdrunk v enc bs
          (bytes_eqb v v0103) nd fd idx
          (blen (pack_header hdrunk v enc bs ++ body)))).
Proof.
  intros Hv Hn Hh He Hb. unfold Datafile_init.
  rewrite readdathdr_pack by assumption. reflexivity.
Qed.

(** [Datafile_init_pack] on a 64-bit header with blocksize 0x200 and
    encoding 3, and an index of one descriptor. *)
Lemma Datafile_init_pack_witness :
  Datafile_init (pack_header 7 v0103 3 0x200 ++ hello)
                (pack_tad true 0 0 [(0x100000000, 0x80000005, 9)])
  = Ret (mkDatafile (pack_header 7 v0103 3 0x200 ++ hello) 7 v0103 3 0x200
           true 0 0 [(0x100000000, 0x80000005, 9)] 24).
Proof.
  rewrite (Datafile_init_pack 7 v0103 3 0x200 hello
             (pack_tad true 0 0 [(0x100000000, 0x80000005, 9)])).
  - reflexivity.
  - reflexivity.
  - discriminate.
  - vm_compute. split; [discriminate | reflexivity].
  - vm_compute. split; [discriminate | reflexivity].
  - vm_compute. split; [discriminate | reflexivity].
Defined.
